(** * Chunked media transfer engine of tgstorage

    A shallow embedding of [src/core/actions/message-media.ts]: the download
    registry and its lane scheduler, the resumable part loop of a download
    task, on-demand stream reads and the upload pipeline.

    Conventions of the embedding.
    - JavaScript numbers that hold sizes, counts and part indices are
      integers of [Z]; the percentage the code rounds
      ([Math.round((part + 1) / partsCount * 100)]) is computed in doubles,
      as the code computes it.
    - An optional property ([x?: T], or a value that may be [undefined]) is
      an [option]; the truthiness tests of the source are the [truthy_*]
      functions below.
    - The store is passed explicitly.  An [async] function is cut at its
      [await]s on the transport (and on the other external promises): the
      code between two such points is one function of the store, and the
      environment chooses what happens to the store while the promise is
      pending and how the promise settles.
    - Functions and constants the module imports from files that are not
      part of the sources at hand are the fields of [Externals]. *)

From Stdlib Require Import ZArith Lia SpecFloat.
From Stdlib.Strings Require Import Byte.
From stdpp Require Import gmap strings list fin_maps.

Open Scope Z_scope.

Abbreviation Bytes := (list Byte.byte).

(** ** Imported functions and constants *)

Class Externals := {
  (** [generateFileKey] of [~/tools/handle-file]: the registry key, a
      function of the file's id, size and optional size-variant tag. *)
  generateFileKey : string → Z → option string → string;
  (** [FILE_SIZE.KB512] of [~/tools/handle-file]. *)
  KB512 : Z;
  (** [transferBytesToFile] of [~/core/cache]: assembles the bytes stored
      under a key into a file of the given MIME type and returns the key
      of the artifact, or [undefined]. *)
  transferBytesToFile : string → string → option string;
  (** [generateFileMessageMark] of [~/tools/handle-content]. *)
  generateFileMessageMark : Z → string
}.

(** A key function for the examples: [id-size] or [id-size-sizeType]. *)
Definition digit (n : Z) : string :=
  String (Ascii.ascii_of_nat (48 + Z.to_nat (n `mod` 10))) "".

Fixpoint decimal (fuel : nat) (n : Z) : string :=
  match fuel with
  | O => ""
  | S fuel' => if (n <? 10)%Z then digit n else decimal fuel' (n / 10)%Z +:+ digit n
  end.

Definition exampleFileKey (id : string) (size : Z) (sizeType : option string) : string :=
  id +:+ "-" +:+ decimal 20 size +:+
  match sizeType with Some t => "-" +:+ t | None => "" end.

Definition exampleExternals : Externals := {|
  generateFileKey := exampleFileKey;
  KB512 := 524288;
  transferBytesToFile := λ key _, Some ("blob:" +:+ key);
  generateFileMessageMark := λ parentId, "#file:" +:+ decimal 20 parentId
|}.

(** ** Truthiness *)

Definition truthy_str (o : option string) : bool :=
  match o with Some s => negb (String.eqb s "") | None => false end.

Definition truthy_num (o : option Z) : bool :=
  match o with Some n => negb (n =? 0) | None => false end.

Definition truthy_bool (o : option bool) : bool :=
  match o with Some b => b | None => false end.

(** [x === false] *)
Definition is_false (o : option bool) : bool :=
  match o with Some false => true | _ => false end.

(** ** Arithmetic of parts *)

(** [Math.ceil(a / b)] for a positive [b]. *)
Definition ceil_div (a b : Z) : Z := - ((- a) / b).

(** ** Numbers

    The percentage of a transfer, [Math.round((part + 1) / partsCount *
    100)], is a quotient and a product of doubles followed by
    [Math.round].  The doubles are the [spec_float] of the Standard
    Library, its operations taken at precision 53 and maximal exponent
    1024 (IEEE 754 binary64, rounding to nearest, ties to even). *)

(** The double of an integer counter: the mantissa brought to 53 digits,
    which is exact for the integers a double holds (those below 2^53 in
    absolute value, see [Number_safe]); a larger integer, which no counter
    of the code can be, is kept as it is. *)
Definition Number (z : Z) : spec_float :=
  let double (s : bool) (p : positive) :=
    let '(m, e) := shl_align p 0 (Z.pos (digits2_pos p) - 53) in
    S754_finite s m e in
  match z with
  | Z0 => S754_zero false
  | Zpos p => double false p
  | Zneg p => double true p
  end.

Definition Number_div (x y : spec_float) : spec_float := SFdiv 53 1024 x y.

Definition Number_mul (x y : spec_float) : spec_float := SFmul 53 1024 x y.

Declare Scope number_scope.
Delimit Scope number_scope with number.
Infix "/" := Number_div : number_scope.
Infix "*" := Number_mul : number_scope.

(** What [Math.round] returns: an integer, or one of the numbers that are
    not: [-0], [NaN], [Infinity] and [-Infinity]. *)
Inductive Rounded :=
| Integer (z : Z)
| NegativeZero
| NotANumber
| Infinite (negative : bool).

(** [Math.round]: the integer nearest to [x], the upper one of two that
    are equally near, that is [floor (x + 1/2)] computed exactly; [-0] for
    [-0] and for a negative [x] not below [-1/2]; [NaN] and the infinities
    are returned as they are. *)
Definition Math_round (x : spec_float) : Rounded :=
  match x with
  | S754_nan => NotANumber
  | S754_infinity s => Infinite s
  | S754_zero s => if s then NegativeZero else Integer 0
  | S754_finite s m e =>
      let mantissa := if s then Zneg m else Zpos m in
      let nearest :=
        if 0 <=? e then mantissa * 2 ^ e
        else (2 * mantissa + 2 ^ (- e)) / 2 ^ (1 - e) in
      if s && (nearest =? 0) then NegativeZero else Integer nearest
  end.

Arguments Number : simpl never.
Arguments Number_div : simpl never.
Arguments Number_mul : simpl never.
Arguments Math_round : simpl never.

(** [Math.round(n / d * 100)] *)
Abbreviation round_percent n d :=
  (Math_round (Number n / Number d * Number 100)%number).

(** ** Data model *)

Record Folder := { folder_id : Z }.

Record DownloadingFile := {
  df_id : string;
  df_size : Z;
  df_type : string;
  df_fileKey : option string;
  df_downloading : option bool;
  df_lastPart : option Z;
  df_partsCount : option Z;
  df_partSize : option Z;
  df_progress : option Rounded;
  df_dc_id : option Z;
  df_access_hash : option string;
  df_file_reference : option Bytes;
  df_sizeType : option string;
  df_originalSizeType : option string
}.

(** Object spreads with overridden properties. *)
Definition with_downloading (v : option bool) (f : DownloadingFile) : DownloadingFile :=
  {| df_id := df_id f; df_size := df_size f; df_type := df_type f;
     df_fileKey := df_fileKey f; df_downloading := v;
     df_lastPart := df_lastPart f; df_partsCount := df_partsCount f;
     df_partSize := df_partSize f; df_progress := df_progress f;
     df_dc_id := df_dc_id f; df_access_hash := df_access_hash f;
     df_file_reference := df_file_reference f; df_sizeType := df_sizeType f;
     df_originalSizeType := df_originalSizeType f |}.

Definition with_locators (src : DownloadingFile) (f : DownloadingFile) : DownloadingFile :=
  {| df_id := df_id f; df_size := df_size f; df_type := df_type f;
     df_fileKey := df_fileKey f; df_downloading := df_downloading f;
     df_lastPart := df_lastPart f; df_partsCount := df_partsCount f;
     df_partSize := df_partSize f; df_progress := df_progress f;
     df_dc_id := df_dc_id src; df_access_hash := df_access_hash src;
     df_file_reference := df_file_reference src; df_sizeType := df_sizeType src;
     df_originalSizeType := df_originalSizeType f |}.

Definition with_geometry (partSize partsCount : Z) (f : DownloadingFile) : DownloadingFile :=
  {| df_id := df_id f; df_size := df_size f; df_type := df_type f;
     df_fileKey := df_fileKey f; df_downloading := df_downloading f;
     df_lastPart := df_lastPart f; df_partsCount := Some partsCount;
     df_partSize := Some partSize; df_progress := df_progress f;
     df_dc_id := df_dc_id f; df_access_hash := df_access_hash f;
     df_file_reference := df_file_reference f; df_sizeType := df_sizeType f;
     df_originalSizeType := df_originalSizeType f |}.

Definition with_terminal (fileKey : option string) (f : DownloadingFile) : DownloadingFile :=
  {| df_id := df_id f; df_size := df_size f; df_type := df_type f;
     df_fileKey := fileKey; df_downloading := Some false;
     df_lastPart := df_lastPart f; df_partsCount := df_partsCount f;
     df_partSize := df_partSize f; df_progress := df_progress f;
     df_dc_id := df_dc_id f; df_access_hash := df_access_hash f;
     df_file_reference := df_file_reference f; df_sizeType := df_sizeType f;
     df_originalSizeType := df_originalSizeType f |}.

Definition with_part_done (part : Z) (progress : Rounded) (f : DownloadingFile)
    : DownloadingFile :=
  {| df_id := df_id f; df_size := df_size f; df_type := df_type f;
     df_fileKey := df_fileKey f; df_downloading := df_downloading f;
     df_lastPart := Some part; df_partsCount := df_partsCount f;
     df_partSize := df_partSize f; df_progress := Some progress;
     df_dc_id := df_dc_id f; df_access_hash := df_access_hash f;
     df_file_reference := df_file_reference f; df_sizeType := df_sizeType f;
     df_originalSizeType := df_originalSizeType f |}.

Definition with_file_reference (r : option Bytes) (f : DownloadingFile) : DownloadingFile :=
  {| df_id := df_id f; df_size := df_size f; df_type := df_type f;
     df_fileKey := df_fileKey f; df_downloading := df_downloading f;
     df_lastPart := df_lastPart f; df_partsCount := df_partsCount f;
     df_partSize := df_partSize f; df_progress := df_progress f;
     df_dc_id := df_dc_id f; df_access_hash := df_access_hash f;
     df_file_reference := r; df_sizeType := df_sizeType f;
     df_originalSizeType := df_originalSizeType f |}.

(** The argument of [api.downloadFilePart] in a download task. *)
Record PartRequest := {
  rq_id : string;
  rq_partSize : Z;
  rq_offsetSize : Z;
  rq_dc_id : option Z;
  rq_access_hash : option string;
  rq_file_reference : option Bytes;
  rq_sizeType : option string;
  rq_originalSizeType : option string
}.

(** How a transport promise settles: with a value (possibly [undefined])
    or with an error that carries a message. *)
Inductive Reply :=
| Resolved (bytes : option Bytes)
| Rejected (message : string).

Definition FILE_REFERENCE_EXPIRED : string := "FILE_REFERENCE_EXPIRED".

(** ** The lane scheduler [downloadingQueue] *)

Definition MAX_DOWNLOADING_COUNT : Z := 4.

Record Queue (T : Type) := {
  nextIndex : Z;
  queues : list (list T)
}.
Arguments nextIndex {T} _.
Arguments queues {T} _.

(** [[...Array(MAX_DOWNLOADING_COUNT).keys()].reduce(...)]: one empty task
    queue per index. *)
Definition downloadingQueue {T} : Queue T :=
  {| nextIndex := 0;
     queues := (λ _, []) <$> seqZ 0 MAX_DOWNLOADING_COUNT |}.

(** [add(fn)].  The lane [queues[currentIndex]] exists for every index the
    scheduler itself produces ([nextIndex_in_range] below); on a missing
    lane the source raises, and the list update leaves the lanes as they
    are. *)
Definition add {T} (fn : T) (q : Queue T) : Queue T :=
  let currentIndex := nextIndex q in
  {| queues := alter (λ lane, lane ++ [fn]) (Z.to_nat currentIndex) (queues q);
     nextIndex := if currentIndex =? MAX_DOWNLOADING_COUNT - 1 then 0
                  else currentIndex + 1 |}.

(** The head of a lane leaves it when its task (and the pause after it)
    is over. *)
Definition complete {T} (lane : nat) (q : Queue T) : Queue T :=
  {| nextIndex := nextIndex q;
     queues := alter (drop 1) lane (queues q) |}.

Inductive QueueOp (T : Type) :=
| QAdd (fn : T)
| QComplete (lane : nat).
Arguments QAdd {T} _.
Arguments QComplete {T} _.

(** The lanes that hold more tasks in [after] than in [before]. *)
Definition grown_lanes {T} (before after : Queue T) : list Z :=
  filter (λ i : Z, (length (queues before !!! Z.to_nat i)
                     < length (queues after !!! Z.to_nat i))%nat)
         (seqZ 0 (Z.of_nat (length (queues after)))).

(** The lanes on which the successive [add]s of a history put their task,
    observed on the lanes themselves. *)
Fixpoint assigned_lanes {T} (ops : list (QueueOp T)) (q : Queue T) : list Z :=
  match ops with
  | [] => []
  | QAdd fn :: ops' => grown_lanes q (add fn q) ++ assigned_lanes ops' (add fn q)
  | QComplete lane :: ops' => assigned_lanes ops' (complete lane q)
  end.

(** The lanes are in order when the index points at one of the four. *)
Definition lanes_ok {T} (q : Queue T) : Prop :=
  0 ≤ nextIndex q < MAX_DOWNLOADING_COUNT ∧ length (queues q) = 4%nat.

(** The number of [add]s in a history. *)
Fixpoint count_adds {T} (ops : list (QueueOp T)) : Z :=
  match ops with
  | [] => 0
  | QAdd _ :: ops' => 1 + count_adds ops'
  | QComplete _ :: ops' => count_adds ops'
  end.

(** ** The download registry and the world of a download *)

(** What a download task captures when [downloadFile] creates it. *)
Record TaskEnv := {
  te_messageId : Z;
  te_file : DownloadingFile;
  te_folder : Folder
}.

(** The constants a task destructures from the registry entry when it
    starts. *)
Record Snapshot := {
  s_id : string;
  s_lastPart : Z;
  s_partsCount : Z;
  s_partSize : Z;
  s_dc_id : option Z;
  s_access_hash : option string;
  s_file_reference : option Bytes;
  s_sizeType : option string;
  s_originalSizeType : option string
}.

(** A task suspended on the request of part [run_part]; [run_local] is the
    loop's variable [downloadingFile], which the rejection handler of the
    request closes over. *)
Record Run := {
  run_env : TaskEnv;
  run_snap : Snapshot;
  run_part : Z;
  run_local : DownloadingFile
}.

Inductive TaskState :=
| Awaiting (run : Run)
| Finished.

(** A task in a lane: not yet started, suspended on a part request, or
    finished and in the pause [wait(DOWNLOADING_TIMEOUT)] that follows. *)
Inductive LaneTask :=
| Queued (env : TaskEnv)
| Running (run : Run)
| Throttled.

(** Calls to collaborators, in the order they are made.  [part] in
    [EvDownloadFilePart] is the loop counter at the call. *)
Inductive Event :=
| EvDownloadFilePart (part : Z) (request : PartRequest)
| EvRefreshMessage (folder : Folder) (messageId : Z)
| EvAddBytes (fileKey : string) (bytes : Bytes)
| EvTransferBytesToFile (fileKey : string) (type : string)
| EvSetProgress (fileKey : string) (part : Z) (progress : Rounded).

Record World := {
  downloadingFiles : gmap string DownloadingFile;
  lanes : Queue LaneTask;
  log : list Event
}.

Definition set_downloadingFiles (m : gmap string DownloadingFile) (w : World) : World :=
  {| downloadingFiles := m; lanes := lanes w; log := log w |}.

Definition set_lanes (q : Queue LaneTask) (w : World) : World :=
  {| downloadingFiles := downloadingFiles w; lanes := q; log := log w |}.

Definition emit (ev : Event) (w : World) : World :=
  {| downloadingFiles := downloadingFiles w; lanes := lanes w; log := log w ++ [ev] |}.

Definition emptyWorld : World :=
  {| downloadingFiles := ∅; lanes := downloadingQueue; log := [] |}.

Section Engine.
Context {ext : Externals}.

Definition fileKeyOf (file : DownloadingFile) : string :=
  generateFileKey (df_id file) (df_size file) (df_sizeType file).

Definition getDownloadingFile (file : DownloadingFile) (w : World) : option DownloadingFile :=
  downloadingFiles w !! fileKeyOf file.

Definition setDownloadingFile (file : DownloadingFile) (w : World) : World :=
  set_downloadingFiles (<[fileKeyOf file := file]> (downloadingFiles w)) w.

Definition pauseDownloadingFile (file : DownloadingFile) (w : World) : World :=
  match getDownloadingFile file w with
  | Some downloadingFile =>
      if truthy_bool (df_downloading downloadingFile)
      then setDownloadingFile (with_downloading (Some false) downloadingFile) w
      else w
  | None => w
  end.

Definition resetDownloadingFile (file : DownloadingFile) (w : World) : World :=
  match downloadingFiles w !! fileKeyOf file with
  | None => w
  | Some _ => set_downloadingFiles (delete (fileKeyOf file) (downloadingFiles w)) w
  end.

Definition DOWNLOADING_PART_SIZE : Z := KB512.

(** [refreshMessage(folder, messageId)] of [./messages], as the download
    task uses it: the call is recorded, nothing is awaited. *)
Definition refreshMessage (folder : Folder) (messageId : Z) (w : World) : World :=
  emit (EvRefreshMessage folder messageId) w.

(** [addBytes] of [~/core/cache]. *)
Definition addBytes (fileKey : string) (bytes : Bytes) (w : World) : World :=
  emit (EvAddBytes fileKey bytes) w.

(** [downloadFile] up to the task it enqueues. *)
Definition downloadFile (messageId : Z) (file : DownloadingFile) (folder : Folder)
    (w : World) : World :=
  let downloadingFile := default file (getDownloadingFile file w) in
  if truthy_str (df_fileKey downloadingFile) || truthy_bool (df_downloading downloadingFile)
  then w
  else
    let downloadingFile :=
      with_downloading (Some true) (with_locators file downloadingFile) in
    let downloadingFile :=
      if negb (truthy_num (df_lastPart downloadingFile)) then
        let partSize := DOWNLOADING_PART_SIZE in
        let partsCount := ceil_div (df_size file) partSize in
        with_geometry partSize partsCount downloadingFile
      else downloadingFile in
    let w := setDownloadingFile downloadingFile w in
    set_lanes
      (add (Queued {| te_messageId := messageId; te_file := file; te_folder := folder |})
           (lanes w)) w.

Definition part_request (snap : Snapshot) (part : Z) : PartRequest :=
  {| rq_id := s_id snap;
     rq_partSize := s_partSize snap;
     rq_offsetSize := part * s_partSize snap;
     rq_dc_id := s_dc_id snap;
     rq_access_hash := s_access_hash snap;
     rq_file_reference := s_file_reference snap;
     rq_sizeType := s_sizeType snap;
     rq_originalSizeType := s_originalSizeType snap |}.

(** The head of the part loop: the test [part < partsCount], the re-read of
    the entry and the call of [api.downloadFilePart], on which the task
    suspends. *)
Definition loop_head (env : TaskEnv) (snap : Snapshot) (part : Z) (w : World)
    : World * TaskState :=
  if part <? s_partsCount snap then
    match getDownloadingFile (te_file env) w with
    | None => (w, Finished)
    | Some downloadingFile =>
        if is_false (df_downloading downloadingFile) then (w, Finished)
        else (emit (EvDownloadFilePart part (part_request snap part)) w,
              Awaiting {| run_env := env; run_snap := snap; run_part := part;
                          run_local := downloadingFile |})
    end
  else (w, Finished).

(** The task from its first line to its first suspension. *)
Definition task_start (env : TaskEnv) (w : World) : World * TaskState :=
  match getDownloadingFile (te_file env) w with
  | None => (w, Finished)
  | Some downloadingFile =>
      let snap :=
        {| s_id := df_id downloadingFile;
           s_lastPart := default (-1) (df_lastPart downloadingFile);
           s_partsCount := default 0 (df_partsCount downloadingFile);
           s_partSize := default 0 (df_partSize downloadingFile);
           s_dc_id := df_dc_id downloadingFile;
           s_access_hash := df_access_hash downloadingFile;
           s_file_reference := df_file_reference downloadingFile;
           s_sizeType := df_sizeType downloadingFile;
           s_originalSizeType := df_originalSizeType downloadingFile |} in
      loop_head env snap (s_lastPart snap + 1) w
  end.

(** The task from the settling of a part request to its next suspension:
    the rejection handler, the test of [bytes], the bookkeeping of the
    part and the next turn of the loop. *)
Definition on_reply (run : Run) (reply : Reply) (w : World) : World * TaskState :=
  let env := run_env run in
  let snap := run_snap run in
  let part := run_part run in
  match reply with
  | Rejected message =>
      if String.eqb message FILE_REFERENCE_EXPIRED
      then (refreshMessage (te_folder env) (te_messageId env)
              (pauseDownloadingFile (run_local run) w), Finished)
      else (w, Finished)
  | Resolved None => (w, Finished)
  | Resolved (Some bytes) =>
      match getDownloadingFile (te_file env) w with
      | None => (w, Finished)
      | Some downloadingFile =>
          let isLastPart := part =? s_partsCount snap - 1 in
          let fileKey := fileKeyOf downloadingFile in
          let type := df_type downloadingFile in
          let isImage := String.prefix "image" type || truthy_str (s_sizeType snap) in
          let progress :=
            Math_round (Number (part + 1) / Number (s_partsCount snap) * Number 100)%number in
          let w := addBytes fileKey bytes w in
          let type' := if isImage then "image/jpeg" else type in
          let fileKey := if isLastPart then transferBytesToFile fileKey type' else None in
          let w := if isLastPart then emit (EvTransferBytesToFile (fileKeyOf downloadingFile) type') w
                   else w in
          let updated :=
            with_part_done part progress
              (if truthy_str fileKey then with_terminal fileKey downloadingFile
               else downloadingFile) in
          let w := emit (EvSetProgress (fileKeyOf updated) part progress)
                     (setDownloadingFile updated w) in
          loop_head env snap (part + 1) w
      end
  end.

(** *** One task against its environment *)

(** What other code may do to the registry while a task is suspended:
    every writer of the registry goes through one of these three. *)
Inductive ExtOp :=
| OpSet (file : DownloadingFile)
| OpPause (file : DownloadingFile)
| OpReset (file : DownloadingFile).

Definition apply_op (w : World) (op : ExtOp) : World :=
  match op with
  | OpSet file => setDownloadingFile file w
  | OpPause file => pauseDownloadingFile file w
  | OpReset file => resetDownloadingFile file w
  end.

Definition apply_ops (ops : list ExtOp) (w : World) : World := foldl apply_op w ops.

(** One turn of the environment: what happens to the registry while the
    request is pending, and how the request settles. *)
Record EnvStep := {
  es_during : list ExtOp;
  es_reply : Reply
}.

(** A suspended task is resumed once per turn of the environment; when the
    turns run out the pending request never settles and the task stays
    suspended. *)
Fixpoint feed (oracle : list EnvStep) (st : World * TaskState) : World * TaskState :=
  match oracle, st with
  | step :: oracle', (w, Awaiting run) =>
      feed oracle' (on_reply run (es_reply step) (apply_ops (es_during step) w))
  | _, _ => st
  end.

Definition run_task (env : TaskEnv) (oracle : list EnvStep) (w : World)
    : World * TaskState :=
  feed oracle (task_start env w).

(** A turn in which nothing touches the registry and the part arrives. *)
Definition deliver (bytes : Bytes) : EnvStep :=
  {| es_during := []; es_reply := Resolved (Some bytes) |}.

(** *** The lanes at work *)

Definition lane_head (lane : nat) (w : World) : option LaneTask :=
  queues (lanes w) !! lane ≫= head.

Definition set_lane_head (lane : nat) (t : LaneTask) (w : World) : World :=
  set_lanes
    {| nextIndex := nextIndex (lanes w);
       queues := alter (λ l, match l with [] => [] | _ :: l' => t :: l' end)
                       lane (queues (lanes w)) |} w.

Definition lane_task_of (st : TaskState) : LaneTask :=
  match st with
  | Awaiting run => Running run
  | Finished => Throttled
  end.

(** What can happen next in the engine: a call from the application, or a
    lane moving on. *)
Inductive Action :=
| CallDownloadFile (messageId : Z) (file : DownloadingFile) (folder : Folder)
| CallPauseDownloadingFile (file : DownloadingFile)
| CallResetDownloadingFile (file : DownloadingFile)
| LaneStart (lane : nat)
| LaneSettle (lane : nat) (reply : Reply)
| LaneElapsed (lane : nat).

Definition engine_step (w : World) (a : Action) : World :=
  match a with
  | CallDownloadFile messageId file folder => downloadFile messageId file folder w
  | CallPauseDownloadingFile file => pauseDownloadingFile file w
  | CallResetDownloadingFile file => resetDownloadingFile file w
  | LaneStart lane =>
      match lane_head lane w with
      | Some (Queued env) =>
          let '(w', st) := task_start env w in
          set_lane_head lane (lane_task_of st) w'
      | _ => w
      end
  | LaneSettle lane reply =>
      match lane_head lane w with
      | Some (Running run) =>
          let '(w', st) := on_reply run reply w in
          set_lane_head lane (lane_task_of st) w'
      | _ => w
      end
  | LaneElapsed lane =>
      match lane_head lane w with
      | Some Throttled => set_lanes (complete lane (lanes w)) w
      | _ => w
      end
  end.

Definition engine_run (actions : list Action) (w : World) : World :=
  foldl engine_step w actions.

(** The states of the registry entry of [file] along a run of the engine. *)
Fixpoint entry_history (file : DownloadingFile) (actions : list Action) (w : World)
    : list (option DownloadingFile) :=
  match actions with
  | [] => [getDownloadingFile file w]
  | a :: actions' =>
      getDownloadingFile file w :: entry_history file actions' (engine_step w a)
  end.

(** *** Observations on a log *)

Definition requested_parts (evs : list Event) : list Z :=
  omap (λ ev, match ev with EvDownloadFilePart part _ => Some part | _ => None end) evs.

Definition progress_updates (evs : list Event) : list Rounded :=
  omap (λ ev, match ev with EvSetProgress _ _ progress => Some progress | _ => None end) evs.

(** Every entry of the registry sits under its own key: the registry is
    written by [setDownloadingFile] only. *)
Definition registry_ok (w : World) : Prop :=
  ∀ key file, downloadingFiles w !! key = Some file → fileKeyOf file = key.

(** The shapes of the calls a task makes from the head of its loop at
    [part] on: it stops; or it requests the part and the request stays
    without effect, or is answered by a reference expiry, or delivers
    bytes, which are stored and recorded before the loop goes on. *)
Inductive task_events (env : TaskEnv) (snap : Snapshot) : Z → list Event → Prop :=
| task_stops part :
    task_events env snap part []
| task_request_idle part :
    part < s_partsCount snap →
    task_events env snap part [EvDownloadFilePart part (part_request snap part)]
| task_request_expired part :
    part < s_partsCount snap →
    task_events env snap part
      [EvDownloadFilePart part (part_request snap part);
       EvRefreshMessage (te_folder env) (te_messageId env)]
| task_request_stored part key bytes transfer rest :
    part < s_partsCount snap →
    (transfer = [] ∨ ∃ type, transfer = [EvTransferBytesToFile key type]) →
    task_events env snap (part + 1) rest →
    task_events env snap part
      (EvDownloadFilePart part (part_request snap part) ::
       EvAddBytes key bytes ::
       transfer ++
       EvSetProgress key part (round_percent (part + 1) (s_partsCount snap)) :: rest).

End Engine.

(** ** Example data *)

Definition movie : DownloadingFile :=
  {| df_id := "movie"; df_size := 1500000; df_type := "video/mp4";
     df_fileKey := None; df_downloading := None; df_lastPart := None;
     df_partsCount := None; df_partSize := None; df_progress := None;
     df_dc_id := Some 2; df_access_hash := Some "ah"; df_file_reference := Some [x01];
     df_sizeType := None; df_originalSizeType := None |}.

Definition inbox : Folder := {| folder_id := 1 |}.

Definition chunk : Reply := Resolved (Some [x2a]).

(** A pause and a second [downloadFile] arrive while the first task waits
    for part 0; both tasks then run, on lanes 0 and 1. *)
Definition pause_resume_race : list Action :=
  [ CallDownloadFile 7 movie inbox;
    LaneStart 0;
    CallPauseDownloadingFile movie;
    CallDownloadFile 7 movie inbox;
    LaneStart 1;
    LaneSettle 0 chunk;
    LaneSettle 0 chunk;
    LaneSettle 1 chunk ].

(** The movie with part 0 stored, still downloading. *)
Definition resumedMovie : DownloadingFile :=
  {| df_id := "movie"; df_size := 1500000; df_type := "video/mp4";
     df_fileKey := None; df_downloading := Some true; df_lastPart := Some 0;
     df_partsCount := Some 3; df_partSize := Some 524288; df_progress := Some (Integer 33);
     df_dc_id := Some 2; df_access_hash := Some "ah"; df_file_reference := Some [x01];
     df_sizeType := None; df_originalSizeType := None |}.

Definition resumedWorld : World :=
  {| downloadingFiles := {[ exampleFileKey "movie" 1500000 None := resumedMovie ]};
     lanes := downloadingQueue;
     log := [] |}.

Definition movieTask : TaskEnv :=
  {| te_messageId := 7; te_file := movie; te_folder := inbox |}.

Definition movieSnapshot : Snapshot :=
  {| s_id := "movie"; s_lastPart := 0; s_partsCount := 3; s_partSize := 524288;
     s_dc_id := Some 2; s_access_hash := Some "ah"; s_file_reference := Some [x01];
     s_sizeType := None; s_originalSizeType := None |}.

Definition movieRun : Run :=
  {| run_env := movieTask; run_snap := movieSnapshot; run_part := 1;
     run_local := resumedMovie |}.

(** The world in which part 1 of the movie has just been requested. *)
Definition requestedWorld : World :=
  emit (EvDownloadFilePart 1 (part_request movieSnapshot 1)) resumedWorld.

(** Part 1 arrives; while part 2 is on its way the registry gets a new file
    reference for the movie; part 2 arrives. *)
Definition refreshed_mid_run : list EnvStep :=
  [ {| es_during := []; es_reply := chunk |};
    {| es_during := [OpSet (with_file_reference (Some [x02]) resumedMovie)];
       es_reply := chunk |} ].

(** ** Stream reads *)

Record Media := {
  media_id : string;
  media_file_reference : option Bytes
}.

Record MediaMessage := { mm_media : option Media }.

Record Message := {
  msg_media : option Media;
  msg_mediaMessages : option (list MediaMessage)
}.

(** The media of a message, the primary one first. *)
Definition message_medias (m : Message) : list (option Media) :=
  msg_media m ::
  match msg_mediaMessages m with
  | Some mediaMessages => map mm_media mediaMessages
  | None => []
  end.

(** Modelled from the spec: "the refreshed reference is available" for a
    message when the store of its folder holds the message and one of its
    media carries a file reference. *)
Definition reference_available (folder : Folder) (messageId : Z)
    (messages : gmap Z (gmap Z Message)) : bool :=
  match messages !! folder_id folder with
  | Some folderMessages =>
      match folderMessages !! messageId with
      | Some message =>
          existsb (λ media : option Media,
                     match media with
                     | Some m => match media_file_reference m with
                                 | Some _ => true
                                 | None => false
                                 end
                     | None => false
                     end)
                  (message_medias message)
      | None => false
      end
  | None => false
  end.

(** [{ ...file, folder, messageId, streaming }] *)
Record StreamingFile := {
  sf_file : DownloadingFile;
  sf_folder : option Folder;
  sf_messageId : option Z;
  sf_streaming : option bool
}.

(** [api.downloadFilePart({ ...streamingFile, offsetSize, partSize,
    precise: false })] and [refreshMessage(folder, messageId, 0, ...)]. *)
Inductive StreamEvent :=
| SEvDownloadFilePart (streamingFile : StreamingFile) (offsetSize partSize : Z)
| SEvRefreshMessage (folder : Folder) (messageId : Z).

Record StreamWorld := {
  streamingFiles : gmap string StreamingFile;
  foldersMessages : gmap Z (gmap Z Message);
  slog : list StreamEvent
}.

Definition semit (ev : StreamEvent) (w : StreamWorld) : StreamWorld :=
  {| streamingFiles := streamingFiles w; foldersMessages := foldersMessages w;
     slog := slog w ++ [ev] |}.

(** What other code may do to the store while a stream read waits. *)
Inductive StreamOp :=
| SOpStreamFile (messageId : Z) (file : DownloadingFile) (folder : option Folder)
| SOpSetFoldersMessages (messages : gmap Z (gmap Z Message)).

(** One turn of the environment for one read: the store while the request
    is pending, how the request settles and, if a refresh follows, the
    store while the message is refreshed. *)
Record StreamStep := {
  ss_during : list StreamOp;
  ss_reply : Reply;
  ss_refresh : list StreamOp
}.

(** The promise of a read: settled with bytes or [undefined]; still
    pending when the environment has no further turn; or left to a
    refresh that has not made a reference available, so that the
    continuation of the read has not been invoked. *)
Inductive Outcome :=
| Returned (bytes : option Bytes)
| Pending
| NotRefreshed.



(** [{ ...streamingFile, file_reference }] when a reference is passed. *)
Definition merge_reference (file_reference : option Bytes) (f : StreamingFile)
    : StreamingFile :=
  match file_reference with
  | Some _ =>
      {| sf_file := with_file_reference file_reference (sf_file f);
         sf_folder := sf_folder f; sf_messageId := sf_messageId f;
         sf_streaming := sf_streaming f |}
  | None => f
  end.

Section Stream.
Context {ext : Externals}.

Definition getStreamingFile (fileKey : string) (w : StreamWorld) : option StreamingFile :=
  streamingFiles w !! fileKey.

Definition setStreamingFile (file : StreamingFile) (w : StreamWorld) : StreamWorld :=
  {| streamingFiles := <[fileKeyOf (sf_file file) := file]> (streamingFiles w);
     foldersMessages := foldersMessages w;
     slog := slog w |}.

(** [streamFile], without the URL it returns. *)
Definition streamFile (messageId : Z) (file : DownloadingFile) (folder : option Folder)
    (w : StreamWorld) : StreamWorld :=
  let fileKey := fileKeyOf file in
  let streamingFile :=
    default {| sf_file := file; sf_folder := folder; sf_messageId := Some messageId;
               sf_streaming := None |}
            (getStreamingFile fileKey w) in
  let locators :=
    {| df_id := df_id (sf_file streamingFile); df_size := df_size (sf_file streamingFile);
       df_type := df_type (sf_file streamingFile);
       df_fileKey := df_fileKey (sf_file streamingFile);
       df_downloading := df_downloading (sf_file streamingFile);
       df_lastPart := df_lastPart (sf_file streamingFile);
       df_partsCount := df_partsCount (sf_file streamingFile);
       df_partSize := df_partSize (sf_file streamingFile);
       df_progress := df_progress (sf_file streamingFile);
       df_dc_id := df_dc_id file; df_access_hash := df_access_hash file;
       df_file_reference := df_file_reference file;
       df_sizeType := df_sizeType (sf_file streamingFile);
       df_originalSizeType := df_originalSizeType (sf_file streamingFile) |} in
  setStreamingFile
    {| sf_file := locators; sf_folder := folder; sf_messageId := Some messageId;
       sf_streaming := Some true |} w.

Definition apply_stream_op (w : StreamWorld) (op : StreamOp) : StreamWorld :=
  match op with
  | SOpStreamFile messageId file folder => streamFile messageId file folder w
  | SOpSetFoldersMessages messages =>
      {| streamingFiles := streamingFiles w; foldersMessages := messages;
         slog := slog w |}
  end.

Definition apply_stream_ops (ops : list StreamOp) (w : StreamWorld) : StreamWorld :=
  foldl apply_stream_op w ops.

(** [getFileReference({ folder, messageId, id })] *)
Definition getFileReference (folder : Folder) (messageId : Z) (id : string)
    (w : StreamWorld) : option Bytes :=
  let folderMessages := foldersMessages w !! folder_id folder in
  let message : option Message :=
    match folderMessages with
    | Some messages => messages !! messageId
    | None => None
    end in
  let media : option (option Media) :=
    find (λ media : option Media,
            match media with
            | Some m => String.eqb (media_id m) id
            | None => false
            end)
         (match message with
          | Some m =>
              msg_media m ::
              match msg_mediaMessages m with
              | Some mediaMessages => map mm_media mediaMessages
              | None => []
              end
          | None => [None]
          end) in
  match media with
  | Some (Some m) => media_file_reference m
  | _ => None
  end.

(** Modelled from the spec: [refreshMessage] of [./messages] is not part of
    the sources at hand.  With a continuation it "re-fetches a message's
    media; engine passes an optional continuation invoked once the
    refreshed reference is available": the call is recorded and the store
    changes as the environment says ([during]); when the store then holds
    the message with a reference, the continuation runs and its result is
    the result of the call; when it does not, the continuation is not
    invoked and there is no result. *)
Definition refreshMessageThen {A} (folder : Folder) (messageId : Z)
    (during : list StreamOp) (callback : StreamWorld → StreamWorld * A) (w : StreamWorld)
    : StreamWorld * option A :=
  let w := apply_stream_ops during (semit (SEvRefreshMessage folder messageId) w) in
  if reference_available folder messageId (foldersMessages w)
  then let '(w, result) := callback w in (w, Some result)
  else (w, None).

(** [downloadStreamFilePart].  The retry is the continuation handed to
    [refreshMessage]. *)
Fixpoint downloadStreamFilePart (oracle : list StreamStep) (fileKey : string)
    (offsetSize partSize : Z) (file_reference : option Bytes) (w : StreamWorld)
    : StreamWorld * Outcome :=
  match getStreamingFile fileKey w with
  | None => (w, Returned None)
  | Some streamingFile =>
      let streamingFile := merge_reference file_reference streamingFile in
      let w := match file_reference with
               | Some _ => setStreamingFile streamingFile w
               | None => w
               end in
      let w := semit (SEvDownloadFilePart streamingFile offsetSize partSize) w in
      match oracle with
      | [] => (w, Pending)
      | step :: oracle' =>
          let w := apply_stream_ops (ss_during step) w in
          match ss_reply step with
          | Resolved bytes => (w, Returned bytes)
          | Rejected message =>
              if String.eqb message FILE_REFERENCE_EXPIRED then
                match sf_folder streamingFile, sf_messageId streamingFile with
                | Some folder, Some messageId =>
                    if messageId =? 0 then (w, Returned None)
                    else
                      match
                        refreshMessageThen folder messageId (ss_refresh step)
                          (λ w,
                             let file_reference :=
                               getFileReference folder messageId
                                 (df_id (sf_file streamingFile)) w in
                             downloadStreamFilePart oracle' fileKey offsetSize partSize
                               file_reference w)
                          w
                      with
                      | (w, Some outcome) => (w, outcome)
                      | (w, None) => (w, NotRefreshed)
                      end
                | _, _ => (w, Returned None)
                end
              else (w, Returned None)
          end
      end
  end.

(** The store after the refresh that follows an expired read: the store
    in which the continuation of the refresh runs, when it does. *)
Definition store_after_refresh (step : StreamStep) (offsetSize partSize : Z)
    (reference : option Bytes) (f : StreamingFile) (folder : Folder) (messageId : Z)
    (w : StreamWorld) : StreamWorld :=
  apply_stream_ops (ss_refresh step)
    (semit (SEvRefreshMessage folder messageId)
       (apply_stream_ops (ss_during step)
          (semit (SEvDownloadFilePart (merge_reference reference f) offsetSize partSize)
             (match reference with
              | Some _ => setStreamingFile (merge_reference reference f) w
              | None => w
              end)))).

End Stream.

(** *** Example data *)

Definition clip : StreamingFile :=
  {| sf_file := movie; sf_folder := Some inbox; sf_messageId := Some 7;
     sf_streaming := Some true |}.


Definition delivered : StreamStep :=
  {| ss_during := []; ss_reply := chunk; ss_refresh := [] |}.

(** The clip is registered for streaming; its message is in no folder of
    the store. *)
Definition clipWorld : StreamWorld :=
  {| streamingFiles := {[ exampleFileKey "movie" 1500000 None := clip ]};
     foldersMessages := ∅;
     slog := [] |}.

(** A turn in which the read is rejected as expired and the refresh
    installs the message store [messages]. *)
Definition expired_then (messages : gmap Z (gmap Z Message)) : StreamStep :=
  {| ss_during := []; ss_reply := Rejected FILE_REFERENCE_EXPIRED;
     ss_refresh := [SOpSetFoldersMessages messages] |}.


(** ** The upload pipeline *)

Record InputFile := {
  if_fileKey : option string;
  if_thumbFileKey : option string;
  if_w : option Z;
  if_h : option Z;
  if_duration : option Z;
  if_progress : option Rounded
}.

Record InputMessage := {
  im_text : string;
  im_inputFiles : option (list InputFile)
}.

(** What [getFileMeta] of [~/core/cache] returns for a staged file. *)
Record FileMeta := {
  fm_name : string;
  fm_size : Z;
  fm_type : string
}.

(** What [api.prepareUploadingFile] resolves to. *)
Record FileParams := {
  fp_partSize : Z;
  fp_lastPartSize : Z;
  fp_partsCount : Z;
  fp_fileId : string;
  fp_fileName : string;
  fp_fileType : string;
  fp_isLarge : bool
}.

Record FileRef := {
  fileId : string;
  fileName : string;
  fileType : string;
  isLarge : bool;
  partsCount : Z
}.

(** What [uploadFile] returns. *)
Record UploadedFile := {
  uf_file : FileRef;
  uf_imageParams : option (Z * Z);
  uf_videoParams : option (Z * Z * Z);
  uf_thumb : option FileRef
}.

Inductive UploadEvent :=
| UEvPrepareUploadingFile (fileKey : string) (fileMeta : FileMeta)
| UEvGetFilePart (fileKey : string) (start fin : Z)
| UEvUploadFilePart (fileKey : string) (part : Z) (bytes : Bytes)
| UEvOnUploadPart (fileKey : string) (progress : Rounded)
| UEvDeleteFile (fileKey : string)
| UEvCreateMessage (text : string) (inputMedia : UploadedFile) (folder : Folder)
    (final : bool).

(** The sending messages by folder id, the metadata of the staged files and
    the calls made so far. *)
Record UploadWorld := {
  sendingMessages : gmap Z InputMessage;
  fileMetas : gmap string FileMeta;
  ulog : list UploadEvent
}.

Definition uemit (ev : UploadEvent) (w : UploadWorld) : UploadWorld :=
  {| sendingMessages := sendingMessages w; fileMetas := fileMetas w;
     ulog := ulog w ++ [ev] |}.

(** Modelled from the spec: [getSendingMessage] of [./messages] is not part
    of the sources at hand; it reads "the outbound message queue the
    UploadPipeline reads/writes", one sending message per folder id. *)
Definition getSendingMessage (folderId : Z) (w : UploadWorld) : option InputMessage :=
  sendingMessages w !! folderId.

(** Modelled from the spec: [setSendingMessage] of [./messages] is not part
    of the sources at hand; it replaces the sending message of a folder. *)
Definition setSendingMessage (folderId : Z) (message : InputMessage) (w : UploadWorld)
    : UploadWorld :=
  {| sendingMessages := <[folderId := message]> (sendingMessages w);
     fileMetas := fileMetas w; ulog := ulog w |}.

(** The sending message of a folder disappears (the send is cancelled or
    over); done by code outside this module. *)
Definition removeSendingMessage (folderId : Z) (w : UploadWorld) : UploadWorld :=
  {| sendingMessages := delete folderId (sendingMessages w);
     fileMetas := fileMetas w; ulog := ulog w |}.

(** Modelled from the spec: [getFileMeta] of [~/core/cache] is not part of
    the sources at hand; "missing metadata" is [None]. *)
Definition getFileMeta (fileKey : string) (w : UploadWorld) : option FileMeta :=
  fileMetas w !! fileKey.

(** Modelled from the spec: [deleteFile] of [~/core/cache] is not part of
    the sources at hand; "the staged bytes are purged from PartStore". *)
Definition deleteFile (fileKey : string) (w : UploadWorld) : UploadWorld :=
  uemit (UEvDeleteFile fileKey)
    {| sendingMessages := sendingMessages w;
       fileMetas := delete fileKey (fileMetas w); ulog := ulog w |}.

(** [key === fileKey] for an optional [key] and a string [fileKey]. *)
Definition key_is (fileKey : string) (key : option string) : bool :=
  match key with Some k => String.eqb k fileKey | None => false end.

Definition with_progress (progress : Rounded) (f : InputFile) : InputFile :=
  {| if_fileKey := if_fileKey f; if_thumbFileKey := if_thumbFileKey f;
     if_w := if_w f; if_h := if_h f; if_duration := if_duration f;
     if_progress := Some progress |}.

Definition with_inputFiles (files : option (list InputFile)) (m : InputMessage)
    : InputMessage :=
  {| im_text := im_text m; im_inputFiles := files |}.

Definition checkIsUploading (folder : Folder) (fileKey : string) (w : UploadWorld) : bool :=
  match getSendingMessage (folder_id folder) w with
  | Some sendingMessage =>
      match im_inputFiles sendingMessage with
      | Some inputFiles =>
          existsb (λ inputFile,
                     key_is fileKey (if_fileKey inputFile)
                     || key_is fileKey (if_thumbFileKey inputFile))
                  inputFiles
      | None => false
      end
  | None => false
  end.

Definition onUploadPart (folder : Folder) (fileKey : string) (progress : Rounded)
    (w : UploadWorld) : UploadWorld :=
  match getSendingMessage (folder_id folder) w with
  | None => w
  | Some sendingMessage =>
      setSendingMessage (folder_id folder)
        (with_inputFiles
           (map (λ inputFile,
                   if key_is fileKey (if_fileKey inputFile)
                   then with_progress progress inputFile else inputFile)
              <$> im_inputFiles sendingMessage)
           sendingMessage) w
  end.

(** *** One file of an input file: the body of the [map] in [uploadFile] *)

(** The variables the body closes over. *)
Record UnitCtx := {
  uc_folder : Folder;
  uc_inputFile : InputFile;
  uc_fileKey : string
}.

Definition isMainFile (ctx : UnitCtx) : bool :=
  key_is (uc_fileKey ctx) (if_fileKey (uc_inputFile ctx)).

(** Where the body is suspended: on [api.prepareUploadingFile], on
    [transformToBytes] for a part, on [api.uploadFilePart] for a part; or
    it has returned. *)
Inductive UnitState :=
| UPreparing
| UTransforming (fileParams : FileParams) (part : Z)
| UUploading (fileParams : FileParams) (part : Z)
| UReturned (fileParams : option FileParams).

(** How the promise the body waits for resolves. *)
Inductive UploadReply :=
| UPrepared (fileParams : FileParams)
| UBytes (filePartBytes : option Bytes)
| UUploaded.

Definition part_end (fileParams : FileParams) (part : Z) : Z :=
  let isLastPart := part =? fp_partsCount fileParams - 1 in
  part * fp_partSize fileParams +
  (if isLastPart then fp_lastPartSize fileParams else fp_partSize fileParams).

(** The head of the loop over the parts, up to [transformToBytes]. *)
Definition unit_loop (ctx : UnitCtx) (fileParams : FileParams) (part : Z)
    (w : UploadWorld) : UploadWorld * UnitState :=
  if part <? fp_partsCount fileParams then
    if checkIsUploading (uc_folder ctx) (uc_fileKey ctx) w then
      (uemit (UEvGetFilePart (uc_fileKey ctx)
                (part * fp_partSize fileParams) (part_end fileParams part)) w,
       UTransforming fileParams part)
    else (w, UReturned None)
  else (deleteFile (uc_fileKey ctx) w, UReturned (Some fileParams)).

(** The body for a key of the input file, up to its first suspension. *)
Definition unit_start (folder : Folder) (inputFile : InputFile) (fileKey : option string)
    (w : UploadWorld) : UploadWorld * UnitState :=
  match fileKey with
  | Some key =>
      if truthy_str fileKey then
        match getFileMeta key w with
        | Some fileMeta =>
            if checkIsUploading folder key w
            then (uemit (UEvPrepareUploadingFile key fileMeta) w, UPreparing)
            else (w, UReturned None)
        | None => (w, UReturned None)
        end
      else (w, UReturned None)
  | None => (w, UReturned None)
  end.

(** The body from the resolution of the promise it waits for to its next
    suspension.  A resolution that is not the one awaited leaves the body
    where it is. *)
Definition unit_resume (ctx : UnitCtx) (st : UnitState) (reply : UploadReply)
    (w : UploadWorld) : UploadWorld * UnitState :=
  match st, reply with
  | UPreparing, UPrepared fileParams => unit_loop ctx fileParams 0 w
  | UTransforming fileParams part, UBytes None => (w, UReturned None)
  | UTransforming fileParams part, UBytes (Some filePartBytes) =>
      (uemit (UEvUploadFilePart (uc_fileKey ctx) part filePartBytes) w,
       UUploading fileParams part)
  | UUploading fileParams part, UUploaded =>
      let w :=
        if isMainFile ctx then
          let progress :=
            Math_round (Number (part + 1) / Number (fp_partsCount fileParams)
                        * Number 100)%number in
          onUploadPart (uc_folder ctx) (uc_fileKey ctx) progress
            (uemit (UEvOnUploadPart (uc_fileKey ctx) progress) w)
        else w in
      unit_loop ctx fileParams (part + 1) w
  | _, _ => (w, st)
  end.

(** What other code may do to the sending messages meanwhile. *)
Inductive SendingOp :=
| OpSetSendingMessage (folderId : Z) (message : InputMessage)
| OpRemoveSendingMessage (folderId : Z).

Definition apply_sending_op (w : UploadWorld) (op : SendingOp) : UploadWorld :=
  match op with
  | OpSetSendingMessage folderId message => setSendingMessage folderId message w
  | OpRemoveSendingMessage folderId => removeSendingMessage folderId w
  end.

Definition apply_sending_ops (ops : list SendingOp) (w : UploadWorld) : UploadWorld :=
  foldl apply_sending_op w ops.

Record UploadStep := {
  us_during : list SendingOp;
  us_reply : UploadReply
}.

Fixpoint unit_feed (ctx : UnitCtx) (oracle : list UploadStep)
    (st : UploadWorld * UnitState) : UploadWorld * UnitState :=
  match oracle with
  | [] => st
  | step :: oracle' =>
      unit_feed ctx oracle'
        (unit_resume ctx st.2 (us_reply step) (apply_sending_ops (us_during step) st.1))
  end.



Definition upload_progress (evs : list UploadEvent) : list Rounded :=
  omap (λ ev, match ev with UEvOnUploadPart _ progress => Some progress | _ => None end)
       evs.

Definition created_messages (evs : list UploadEvent) : list (string * UploadedFile * bool) :=
  omap (λ ev, match ev with
              | UEvCreateMessage text inputMedia _ final => Some (text, inputMedia, final)
              | _ => None
              end) evs.

(** The points of the body at which a trace of its calls can begin. *)
Inductive Position :=
| AtPrepare
| AtLoop (fileParams : FileParams) (part : Z)
| AtTransform (fileParams : FileParams) (part : Z)
| AtUpload (fileParams : FileParams) (part : Z).

(** The call of [onUploadPart] after a part, for the main file only. *)
Definition progress_events (ctx : UnitCtx) (fileParams : FileParams) (part : Z)
    : list UploadEvent :=
  if isMainFile ctx
  then [UEvOnUploadPart (uc_fileKey ctx)
          (round_percent (part + 1) (fp_partsCount fileParams))]
  else [].

(** The calls the body can make from a point on. *)
Inductive unit_trace (ctx : UnitCtx) : Position → list UploadEvent → Prop :=
| trace_nothing pos :
    unit_trace ctx pos []
| trace_prepared fileParams evs :
    unit_trace ctx (AtLoop fileParams 0) evs →
    unit_trace ctx AtPrepare evs
| trace_read fileParams part evs :
    part < fp_partsCount fileParams →
    unit_trace ctx (AtTransform fileParams part) evs →
    unit_trace ctx (AtLoop fileParams part)
      (UEvGetFilePart (uc_fileKey ctx)
         (part * fp_partSize fileParams) (part_end fileParams part) :: evs)
| trace_done fileParams part :
    fp_partsCount fileParams ≤ part →
    unit_trace ctx (AtLoop fileParams part) [UEvDeleteFile (uc_fileKey ctx)]
| trace_transformed fileParams part bytes evs :
    unit_trace ctx (AtUpload fileParams part) evs →
    unit_trace ctx (AtTransform fileParams part)
      (UEvUploadFilePart (uc_fileKey ctx) part bytes :: evs)
| trace_uploaded fileParams part evs :
    unit_trace ctx (AtLoop fileParams (part + 1)) evs →
    unit_trace ctx (AtUpload fileParams part)
      (progress_events ctx fileParams part ++ evs).

Definition position_of (st : UnitState) : Position :=
  match st with
  | UPreparing => AtPrepare
  | UTransforming fileParams part => AtTransform fileParams part
  | UUploading fileParams part => AtUpload fileParams part
  | UReturned _ => AtPrepare
  end.


(** *** [uploadFile] and [uploadFiles] *)

Definition file_ref (fileParams : FileParams) : FileRef :=
  {| fileId := fp_fileId fileParams; fileName := fp_fileName fileParams;
     fileType := fp_fileType fileParams; isLarge := fp_isLarge fileParams;
     partsCount := fp_partsCount fileParams |}.

(** The value [uploadFile] returns once both bodies have returned. *)
Definition uploaded_file (inputFile : InputFile)
    (mainFileParams thumbFileParams : option FileParams) : option UploadedFile :=
  match mainFileParams with
  | None => None
  | Some main =>
      let sized := truthy_num (if_w inputFile) && truthy_num (if_h inputFile) in
      let timed := truthy_num (if_duration inputFile) in
      Some {| uf_file := file_ref main;
              uf_imageParams :=
                match if_w inputFile, if_h inputFile with
                | Some w, Some h => if sized && negb timed then Some (w, h) else None
                | _, _ => None
                end;
              uf_videoParams :=
                match if_w inputFile, if_h inputFile, if_duration inputFile with
                | Some w, Some h, Some duration =>
                    if sized && timed then Some (w, h, duration) else None
                | _, _, _ => None
                end;
              uf_thumb := file_ref <$> thumbFileParams |}
  end.

Record PassCtx := {
  pc_message : InputMessage;
  pc_folder : Folder;
  pc_parentId : Z
}.

Definition pass_inputFiles (ctx : PassCtx) : list InputFile :=
  default [] (im_inputFiles (pc_message ctx)).

(** Where a pass of [uploadFiles] is suspended: on [uploadFile] for the
    file with [remaining] files after it, on [createMessage] for that
    file; or it has returned. *)
Inductive PassState :=
| PUploading (remaining : nat) (inputFile : InputFile) (main thumb : UnitState)
| PCreating (remaining : nat) (inputFile : InputFile)
| PReturned (result : option InputMessage).

(** The loop counter [i] when [remaining] files follow the current one,
    and [i === inputFiles.length - 1]. *)
Definition pass_index (ctx : PassCtx) (remaining : nat) : nat :=
  (length (pass_inputFiles ctx) - S remaining)%nat.

Definition pass_final (ctx : PassCtx) (remaining : nat) : bool :=
  Z.of_nat (pass_index ctx remaining) =? Z.of_nat (length (pass_inputFiles ctx)) - 1.

Definition main_ctx (ctx : PassCtx) (inputFile : InputFile) : UnitCtx :=
  {| uc_folder := pc_folder ctx; uc_inputFile := inputFile;
     uc_fileKey := default "" (if_fileKey inputFile) |}.

Definition thumb_ctx (ctx : PassCtx) (inputFile : InputFile) : UnitCtx :=
  {| uc_folder := pc_folder ctx; uc_inputFile := inputFile;
     uc_fileKey := default "" (if_thumbFileKey inputFile) |}.

Inductive UploadAction :=
| AMain (reply : UploadReply)
| AThumb (reply : UploadReply)
| ACreated (success : bool)
| AExt (op : SendingOp).

Section Upload.
Context {ext : Externals}.

(** After a step of one of the two bodies: when both have returned,
    [uploadFile] returns; without a result the loop of [uploadFiles] goes
    on ([continue_]), with one [createMessage] is called and awaited. *)
Definition settle (continue_ : UploadWorld → UploadWorld * PassState) (ctx : PassCtx)
    (remaining : nat) (inputFile : InputFile) (main thumb : UnitState)
    (w : UploadWorld) : UploadWorld * PassState :=
  match main, thumb with
  | UReturned mainFileParams, UReturned thumbFileParams =>
      match uploaded_file inputFile mainFileParams thumbFileParams with
      | None => continue_ w
      | Some uploadedFile =>
          (uemit (UEvCreateMessage (generateFileMessageMark (pc_parentId ctx))
                    uploadedFile (pc_folder ctx) (pass_final ctx remaining)) w,
           PCreating remaining inputFile)
      end
  | _, _ => (w, PUploading remaining inputFile main thumb)
  end.

(** The loop of [uploadFiles] with [remaining] files to go, up to its
    next suspension. *)
Fixpoint pass_loop (ctx : PassCtx) (remaining : nat) (w : UploadWorld)
    : UploadWorld * PassState :=
  match remaining with
  | O => (w, PReturned (Some (pc_message ctx)))
  | S remaining' =>
      match getSendingMessage (folder_id (pc_folder ctx)) w with
      | None => (w, PReturned None)
      | Some _ =>
          match pass_inputFiles ctx !! pass_index ctx remaining' with
          | Some inputFile =>
              if truthy_str (if_fileKey inputFile) then
                let '(w, main) :=
                  unit_start (pc_folder ctx) inputFile (if_fileKey inputFile) w in
                let '(w, thumb) :=
                  unit_start (pc_folder ctx) inputFile (if_thumbFileKey inputFile) w in
                settle (pass_loop ctx remaining') ctx remaining' inputFile main thumb w
              else pass_loop ctx remaining' w
          | None => pass_loop ctx remaining' w
          end
      end
  end.

Definition uploadFiles (ctx : PassCtx) (w : UploadWorld) : UploadWorld * PassState :=
  pass_loop ctx (length (pass_inputFiles ctx)) w.

(** The pending list without the file that has just been sent. *)
Definition without_file (inputFile : InputFile) (sendingMessage : InputMessage)
    : InputMessage :=
  with_inputFiles
    (List.filter (λ f, negb (bool_decide (if_fileKey f = if_fileKey inputFile)))
       <$> im_inputFiles sendingMessage)
    sendingMessage.

Definition pass_step (ctx : PassCtx) (s : UploadWorld * PassState) (a : UploadAction)
    : UploadWorld * PassState :=
  let w := s.1 in
  match a, s.2 with
  | AExt op, st => (apply_sending_op w op, st)
  | AMain reply, PUploading remaining inputFile main thumb =>
      let '(w, main) := unit_resume (main_ctx ctx inputFile) main reply w in
      settle (pass_loop ctx remaining) ctx remaining inputFile main thumb w
  | AThumb reply, PUploading remaining inputFile main thumb =>
      let '(w, thumb) := unit_resume (thumb_ctx ctx inputFile) thumb reply w in
      settle (pass_loop ctx remaining) ctx remaining inputFile main thumb w
  | ACreated success, PCreating remaining inputFile =>
      if success && negb (pass_final ctx remaining) then
        match getSendingMessage (folder_id (pc_folder ctx)) w with
        | None => (w, PReturned None)
        | Some sendingMessage =>
            pass_loop ctx remaining
              (setSendingMessage (folder_id (pc_folder ctx))
                 (without_file inputFile sendingMessage) w)
        end
      else pass_loop ctx remaining w
  | _, _ => s
  end.

Definition pass_run (ctx : PassCtx) (actions : list UploadAction) (w : UploadWorld)
    : UploadWorld * PassState :=
  foldl (pass_step ctx) (uploadFiles ctx w) actions.


End Upload.

(** *** Example data *)

Definition photo : InputFile :=
  {| if_fileKey := Some "photo"; if_thumbFileKey := None;
     if_w := Some 640; if_h := Some 480; if_duration := None; if_progress := None |}.






Definition twoParts (name : string) : FileParams :=
  {| fp_partSize := 4; fp_lastPartSize := 1; fp_partsCount := 2;
     fp_fileId := name; fp_fileName := name; fp_fileType := "file"; fp_isLarge := false |}.



Definition photoUnit : UnitCtx :=
  {| uc_folder := inbox; uc_inputFile := photo; uc_fileKey := "photo" |}.

Definition two_parts_sent : list UploadStep :=
  [ {| us_during := []; us_reply := UBytes (Some [x01]) |};
    {| us_during := []; us_reply := UUploaded |};
    {| us_during := []; us_reply := UBytes (Some [x02]) |};
    {| us_during := []; us_reply := UUploaded |} ].

(** ** Further observations and operations *)

(** The tasks that wait for the transport, over all lanes. *)
Definition is_running (t : LaneTask) : bool :=
  match t with Running _ => true | _ => false end.

Definition running_in (lane : list LaneTask) : nat :=
  length (List.filter is_running lane).

Definition running_tasks (w : World) : nat :=
  sum_list (running_in <$> queues (lanes w)).

(** In a lane only the head can have started. *)
Definition lane_in_order (lane : list LaneTask) : Prop :=
  Forall (λ t, ∃ env, t = Queued env) (tail lane).

Definition lanes_in_order (w : World) : Prop :=
  Forall lane_in_order (queues (lanes w)).

(** The constants a task takes from the entry it starts on. *)
Definition snapshot_of (entry : DownloadingFile) : Snapshot :=
  {| s_id := df_id entry;
     s_lastPart := default (-1) (df_lastPart entry);
     s_partsCount := default 0 (df_partsCount entry);
     s_partSize := default 0 (df_partSize entry);
     s_dc_id := df_dc_id entry;
     s_access_hash := df_access_hash entry;
     s_file_reference := df_file_reference entry;
     s_sizeType := df_sizeType entry;
     s_originalSizeType := df_originalSizeType entry |}.

(** The type handed to [transferBytesToFile] for an entry. *)
Definition artifact_type (snap : Snapshot) (file : DownloadingFile) : string :=
  if String.prefix "image" (df_type file) || truthy_str (s_sizeType snap)
  then "image/jpeg" else df_type file.

Definition request_offsets (evs : list Event) : list Z :=
  omap (λ ev, match ev with
              | EvDownloadFilePart _ request => Some (rq_offsetSize request)
              | _ => None
              end) evs.

Definition uploaded_parts (evs : list UploadEvent) : list Z :=
  omap (λ ev, match ev with UEvUploadFilePart _ part _ => Some part | _ => None end) evs.

Definition deleted_files (evs : list UploadEvent) : list string :=
  omap (λ ev, match ev with UEvDeleteFile key => Some key | _ => None end) evs.

(** [resetUploadingFiles] *)
Definition resetUploadingFiles (inputFiles : list InputFile) (w : UploadWorld)
    : UploadWorld :=
  foldl (λ w inputFile,
           let w := match if_fileKey inputFile with
                    | Some fileKey =>
                        if truthy_str (if_fileKey inputFile) then deleteFile fileKey w else w
                    | None => w
                    end in
           match if_thumbFileKey inputFile with
           | Some thumbFileKey =>
               if truthy_str (if_thumbFileKey inputFile) then deleteFile thumbFileKey w else w
           | None => w
           end)
        w inputFiles.

(** The keys [resetUploadingFiles] deletes. *)
Definition staged_keys (inputFiles : list InputFile) : list string :=
  inputFiles ≫= λ inputFile,
    (if truthy_str (if_fileKey inputFile)
     then default [] ((λ k, [k]) <$> if_fileKey inputFile) else []) ++
    (if truthy_str (if_thumbFileKey inputFile)
     then default [] ((λ k, [k]) <$> if_thumbFileKey inputFile) else []).

(** The calls of [createMessage] a pass may still make from a state. *)
Definition markers_to_come (st : PassState) : nat :=
  match st with
  | PUploading remaining _ _ _ => S remaining
  | PCreating remaining _ => remaining
  | PReturned _ => 0
  end.

Section MoreStream.
Context {ext : Externals}.

(** Every streaming entry sits under its own key: the map is written by
    [setStreamingFile] only. *)
Definition streaming_ok (w : StreamWorld) : Prop :=
  ∀ key f, streamingFiles w !! key = Some f → fileKeyOf (sf_file f) = key.

End MoreStream.

(** ** The checklist item of the content form

    The computed flags of [ContentFormChecklistItem]
    ([src/ui/elements/content-form/content-form-checklist-item.tsx]).  An
    index that is [null] or [undefined] is [None]. *)

Record ChecklistProps := {
  cp_item : string;
  cp_index : Z;
  cp_length : Z;
  cp_draggingIndex : option Z;
  cp_draggingValue : option string;
  cp_enteringIndex : option Z
}.

Definition isFirstItem (p : ChecklistProps) : bool := cp_index p =? 0.

Definition isLastItem (p : ChecklistProps) : bool := cp_index p =? cp_length p - 1.

Definition isEntering (p : ChecklistProps) : bool :=
  match cp_draggingIndex p, cp_enteringIndex p with
  | Some draggingIndex, Some enteringIndex =>
      negb (draggingIndex =? enteringIndex) &&
      ((enteringIndex =? cp_index p) ||
       ((enteringIndex =? cp_length p - 1) && (cp_index p =? cp_length p - 1)))
  | _, _ => false
  end.

Definition isFirstFakeChecklistItem (p : ChecklistProps) : bool :=
  isEntering p &&
  match cp_draggingIndex p, cp_enteringIndex p with
  | Some draggingIndex, Some enteringIndex =>
      (enteringIndex <? draggingIndex) || (enteringIndex =? cp_length p - 1)
  | _, _ => false
  end.

Definition isLastFakeChecklistItem (p : ChecklistProps) : bool :=
  isEntering p &&
  match cp_draggingIndex p, cp_enteringIndex p with
  | Some draggingIndex, Some enteringIndex =>
      (draggingIndex <? enteringIndex) && negb (enteringIndex =? cp_length p - 1)
  | _, _ => false
  end.

(** [draggingIndex === index] *)
Definition isDragging (p : ChecklistProps) : bool :=
  match cp_draggingIndex p with
  | Some draggingIndex => draggingIndex =? cp_index p
  | None => false
  end.

(** The attribute [draggable] of the handle, the presence of the delete
    button and [autoFocus] of the input. *)
Definition draggable (p : ChecklistProps) : bool := negb (isLastItem p).
Definition hasDeleteButton (p : ChecklistProps) : bool := negb (isLastItem p).
Definition autoFocus (p : ChecklistProps) : bool := isFirstItem p && isLastItem p.

(** The props of the item at [index] of a list in a given state of the
    drag. *)
Definition item_at (length : Z) (draggingIndex enteringIndex : option Z) (index : Z)
    : ChecklistProps :=
  {| cp_item := ""; cp_index := index; cp_length := length;
     cp_draggingIndex := draggingIndex; cp_draggingValue := None;
     cp_enteringIndex := enteringIndex |}.

(** What the events after a state of the body say about the state it
    ends in: the body returns the parameters of the file only with every
    remaining part uploaded and the staged file deleted, and deletes the
    staged file in no other case. *)
Definition upload_outcome (ctx : UnitCtx) (st final : UnitState)
    (evs : list UploadEvent) : Prop :=
  let complete (fileParams : FileParams) (first : Z) :=
    (∀ returned, final = UReturned (Some returned) →
       returned = fileParams ∧
       uploaded_parts evs = seqZ first (fp_partsCount fileParams - first) ∧
       deleted_files evs = [uc_fileKey ctx]) ∧
    ((∀ returned, final ≠ UReturned (Some returned)) → deleted_files evs = []) in
  match st with
  | UReturned result => final = UReturned result ∧ evs = []
  | UPreparing =>
      (∀ returned, final = UReturned (Some returned) →
         uploaded_parts evs = seqZ 0 (fp_partsCount returned) ∧
         deleted_files evs = [uc_fileKey ctx]) ∧
      ((∀ returned, final ≠ UReturned (Some returned)) → deleted_files evs = [])
  | UTransforming fileParams part =>
      part < fp_partsCount fileParams → complete fileParams part
  | UUploading fileParams part =>
      part < fp_partsCount fileParams → complete fileParams (part + 1)
  end.

(** An input file whose thumbnail is stored under the key of the file
    itself, alone in its sending message. *)
Definition selfThumb : InputFile :=
  {| if_fileKey := Some "photo"; if_thumbFileKey := Some "photo";
     if_w := Some 640; if_h := Some 480; if_duration := None; if_progress := None |}.

Definition selfThumbMessage : InputMessage :=
  {| im_text := "photo"; im_inputFiles := Some [selfThumb] |}.

Definition selfThumbPass : PassCtx :=
  {| pc_message := selfThumbMessage; pc_folder := inbox; pc_parentId := 40 |}.

Definition selfThumbWorld : UploadWorld :=
  {| sendingMessages := {[ 1 := selfThumbMessage ]};
     fileMetas := {[ "photo" := {| fm_name := "p.jpg"; fm_size := 3; fm_type := "image/jpeg" |} ]};
     ulog := [] |}.


(** Both bodies are prepared with two parts; the first part of the
    thumbnail is acknowledged after the last part of the file. *)
Definition thumbnail_after_main : list UploadAction :=
  [ AMain (UPrepared (twoParts "photo")); AThumb (UPrepared (twoParts "photo"));
    AMain (UBytes (Some [x01])); AMain UUploaded;
    AMain (UBytes (Some [x02])); AThumb (UBytes (Some [x01]));
    AMain UUploaded; AThumb UUploaded ].


(** The message store after a refresh: message 7 of the inbox carries the
    movie with a new reference. *)
Definition refreshedMessages : gmap Z (gmap Z Message) :=
  {[ 1 := {[ 7 := {| msg_media :=
                       Some {| media_id := "movie"; media_file_reference := Some [x02] |};
                     msg_mediaMessages := None |} ]} ]}.

Section MoreUpload.
Context {ext : Externals}.

(** The markers a pass adds between two of its states: no more than the
    calls of [createMessage] the earlier state had to come (less those the
    later one still has), each with the mark of the parent. *)
Definition marks_within (ctx : PassCtx) (before : UploadWorld) (budget : nat)
    (after : UploadWorld * PassState) : Prop :=
  ∃ marks,
    created_messages (ulog after.1) = created_messages (ulog before) ++ marks ∧
    (length marks + markers_to_come after.2 ≤ budget)%nat ∧
    Forall (λ m, m.1.1 = generateFileMessageMark (pc_parentId ctx)) marks.

End MoreUpload.

(** * Properties *)

(** ** Numbers *)

Lemma digits2_pos_iter_xO p k :
  Z.pos (digits2_pos (Pos.iter xO p k)) = Z.pos (digits2_pos p) + Z.pos k.
Proof.
  induction k as [|k IH] using Pos.peano_ind.
  - simpl. lia.
  - rewrite Pos.iter_succ. simpl. lia.
Qed.

Lemma Number_finite z :
  z ≠ 0 → ∃ m e, Number z = S754_finite (z <? 0) m e.
Proof.
  intros Hz. unfold Number.
  destruct z as [|p|p]; [done | |];
    destruct (shl_align p 0 (Z.pos (digits2_pos p) - 53)) as [m e]; by exists m, e.
Qed.

Lemma digits2_pos_low q : 2 ^ (Z.pos (digits2_pos q) - 1) ≤ Z.pos q.
Proof.
  induction q as [q IH|q IH|]; simpl digits2_pos; [| |simpl; lia];
    rewrite Pos2Z.inj_succ;
    replace (Z.succ (Z.pos (digits2_pos q)) - 1)
      with (Z.succ (Z.pos (digits2_pos q) - 1)) by lia;
    rewrite Z.pow_succ_r by lia; lia.
Qed.

(** A mantissa of 53 digits with an exponent in range is a double as it
    is: rounding leaves it alone. *)
Lemma binary_round_aux_exact s m e :
  Z.pos (digits2_pos m) = 53 → -1074 ≤ e ≤ 971 →
  binary_round_aux 53 1024 s (Z.pos m) e loc_Exact = S754_finite s m e.
Proof.
  intros Hdigits He.
  assert (fexp 53 1024 (53 + e) - e = 0) as Hshift by (unfold fexp, emin; lia).
  unfold binary_round_aux, shr_fexp. cbn [Zdigits2]. rewrite Hdigits, Hshift.
  cbn [shr shr_record_of_loc loc_of_shr_record shr_m round_nearest_even Zdigits2].
  rewrite Hdigits, Hshift. cbn [shr shr_m].
  destruct (Z.leb_spec e (1024 - 53)); [done | lia].
Qed.

(** An integer below 2^53 in absolute value, which a double holds
    exactly, is the double the Standard Library makes of it. *)
Lemma Number_safe z :
  Z.abs z < 2 ^ 53 → Number z = binary_normalize 53 1024 z 0 false.
Proof.
  intros Hsafe.
  assert (∀ s p, Z.pos p < 2 ^ 53 →
            (let '(m, e) := shl_align p 0 (Z.pos (digits2_pos p) - 53) in
             S754_finite s m e) = binary_round 53 1024 s p 0) as Hdouble.
  { intros s p Hp. unfold binary_round.
    assert (Z.pos (digits2_pos p) ≤ 53) as Hdigits.
    { destruct (Z_le_gt_dec (Z.pos (digits2_pos p)) 53) as [|Hgt]; [done|]. exfalso.
      pose proof (digits2_pos_low p) as Hlow.
      assert (2 ^ 53 ≤ 2 ^ (Z.pos (digits2_pos p) - 1)) by (apply Z.pow_le_mono_r; lia).
      lia. }
    replace (fexp 53 1024 (Z.pos (digits2_pos p) + 0)) with (Z.pos (digits2_pos p) - 53)
      by (unfold fexp, emin; lia).
    unfold shl_align.
    destruct (Z.pos (digits2_pos p) - 53 - 0) as [|k|k] eqn:Hshift.
    - symmetry. apply binary_round_aux_exact; lia.
    - lia.
    - symmetry. apply binary_round_aux_exact; [|lia].
      rewrite digits2_pos_iter_xO. lia. }
  destruct z as [|p|p]; [done | |]; apply Hdouble; lia.
Qed.

(** The quotient of a positive integer by itself is the double 1. *)
Lemma Number_div_same pc :
  0 < pc → (Number pc / Number pc)%number = (Number 1 / Number 1)%number.
Proof.
  intros Hpc. destruct (Number_finite pc) as (m & e & ->); [lia|].
  replace (pc <? 0) with false by (symmetry; apply Z.ltb_ge; lia).
  transitivity (S754_finite false 4503599627370496 (-52)); [|vm_compute; reflexivity].
  unfold Number_div, SFdiv, SFdiv_core_binary.
  replace (Zdigits2 (Z.pos m) + e - (Zdigits2 (Z.pos m) + e)) with 0 by lia.
  replace (e - e) with 0 by lia.
  change (Z.min (fexp 53 1024 0) 0) with (-53).
  change (0 - -53) with 53.
  cbv iota.
  assert (Z.div_eucl (Z.shiftl (Z.pos m) 53) (Z.pos m) = (2 ^ 53, 0)) as ->.
  { rewrite Z.shiftl_mul_pow2 by lia.
    pose proof (Z.div_eucl_eq (Z.pos m * 2 ^ 53) (Z.pos m)) as Heq.
    pose proof (Z.mod_pos_bound (Z.pos m * 2 ^ 53) (Z.pos m)) as Hbound.
    unfold Z.modulo in Hbound.
    destruct (Z.div_eucl (Z.pos m * 2 ^ 53) (Z.pos m)) as [q r].
    specialize (Heq ltac:(lia)). specialize (Hbound ltac:(lia)).
    generalize dependent (2 ^ 53). intros K Heq.
    assert (q = K) as -> by nia. f_equal. lia. }
  assert (new_location (Z.pos m) 0 = loc_Exact) as ->.
  { unfold new_location. by destruct (Z.even (Z.pos m)). }
  vm_compute. reflexivity.
Qed.

(** The percentage after the last part of a file with parts is 100. *)
Lemma round_percent_all pc : 0 < pc → round_percent pc pc = Integer 100.
Proof. intros Hpc. rewrite (Number_div_same pc Hpc). vm_compute. reflexivity. Qed.

(** ** The lane scheduler *)

Lemma downloadingQueue_ok {T} : lanes_ok (@downloadingQueue T).
Proof. split; [unfold MAX_DOWNLOADING_COUNT; simpl; lia | reflexivity]. Qed.

Lemma add_ok {T} (fn : T) q : lanes_ok q → lanes_ok (add fn q).
Proof.
  intros [Hi Hl]. unfold MAX_DOWNLOADING_COUNT in *. split; simpl.
  - unfold MAX_DOWNLOADING_COUNT. destruct (Z.eqb_spec (nextIndex q) (4 - 1)); lia.
  - by rewrite length_alter.
Qed.

Lemma complete_ok {T} lane (q : Queue T) : lanes_ok q → lanes_ok (complete lane q).
Proof. intros [Hi Hl]. split; simpl; [done | by rewrite length_alter]. Qed.

(** The index [add] leaves behind is the next one, modulo the lane count. *)
Lemma nextIndex_add {T} (fn : T) q :
  lanes_ok q → nextIndex (add fn q) = (nextIndex q + 1) `mod` MAX_DOWNLOADING_COUNT.
Proof.
  intros [Hi _]. unfold MAX_DOWNLOADING_COUNT in *. simpl.
  unfold MAX_DOWNLOADING_COUNT.
  destruct (Z.eqb_spec (nextIndex q) (4 - 1)) as [->|Hne]; [reflexivity|].
  rewrite Z.mod_small; lia.
Qed.

(** [add] lengthens the lane [nextIndex] and no other. *)
Lemma grown_lanes_add {T} (fn : T) q :
  lanes_ok q → grown_lanes q (add fn q) = [nextIndex q].
Proof.
  intros [Hi Hl]. unfold MAX_DOWNLOADING_COUNT in *.
  destruct q as [i ls]; simpl in *.
  destruct ls as [|l0 [|l1 [|l2 [|l3 [|? ?]]]]]; try discriminate Hl.
  unfold grown_lanes; simpl queues. rewrite length_alter.
  change (seqZ 0 (Z.of_nat (length [l0; l1; l2; l3]))) with [0; 1; 2; 3].
  assert (i = 0 ∨ i = 1 ∨ i = 2 ∨ i = 3) as [-> | [-> | [-> | ->]]] by lia;
    repeat (rewrite filter_cons; simpl; rewrite ?length_app; simpl;
            case_decide; try lia);
    reflexivity.
Qed.

Lemma count_adds_nonneg {T} (ops : list (QueueOp T)) : 0 ≤ count_adds ops.
Proof. induction ops as [|[?|?] ops IH]; cbn [count_adds]; lia. Qed.

Lemma assigned_lanes_from {T} (ops : list (QueueOp T)) q :
  lanes_ok q →
  assigned_lanes ops q =
  (λ k, (nextIndex q + k) `mod` MAX_DOWNLOADING_COUNT) <$> seqZ 0 (count_adds ops).
Proof.
  revert q. induction ops as [|[fn|lane] ops IH]; intros q Hq;
    cbn [assigned_lanes count_adds].
  - reflexivity.
  - rewrite grown_lanes_add by done.
    rewrite IH by (by apply add_ok).
    pose proof (count_adds_nonneg ops) as Hn.
    rewrite (seqZ_cons 0 (1 + count_adds ops)) by lia. rewrite fmap_cons. cbn [app].
    replace (Z.pred (1 + count_adds ops)) with (count_adds ops) by lia.
    destruct Hq as [Hi Hl]. f_equal.
    + rewrite Z.add_0_r, Z.mod_small; [done | lia].
    + rewrite nextIndex_add by done.
      replace (Z.succ 0) with (1 + 0) by lia.
      rewrite <- (fmap_add_seqZ 1 0), <- list_fmap_compose.
      apply list_fmap_ext. intros _ k _. simpl.
      rewrite Zplus_mod_idemp_l. f_equal. lia.
  - rewrite IH by (by apply complete_ok). reflexivity.
Qed.

(** C4. Counting from 0, the k-th task added to the scheduler goes to lane
    [k mod 4], whatever tasks have left their lanes in between; five tasks
    in a row go to lanes 0, 1, 2, 3, 0. *)
Theorem round_robin_lane_assignment {T} :
  (∀ ops : list (QueueOp T),
     assigned_lanes ops downloadingQueue =
     (λ k, k `mod` MAX_DOWNLOADING_COUNT) <$> seqZ 0 (count_adds ops)) ∧
  (∀ t0 t1 t2 t3 t4 : T,
     assigned_lanes [QAdd t0; QAdd t1; QAdd t2; QAdd t3; QAdd t4] downloadingQueue
     = [0; 1; 2; 3; 0]).
Proof.
  split.
  - intros ops. rewrite assigned_lanes_from by apply downloadingQueue_ok.
    reflexivity.
  - intros. reflexivity.
Qed.

(** ** Download tasks *)

Section DownloadProperties.
Context {ext : Externals}.

Lemma fileKeyOf_with_downloading v f : fileKeyOf (with_downloading v f) = fileKeyOf f.
Proof. reflexivity. Qed.

Lemma fileKeyOf_with_part_done part progress f :
  fileKeyOf (with_part_done part progress f) = fileKeyOf f.
Proof. reflexivity. Qed.

Lemma fileKeyOf_with_terminal k f : fileKeyOf (with_terminal k f) = fileKeyOf f.
Proof. reflexivity. Qed.

Lemma log_pauseDownloadingFile file w : log (pauseDownloadingFile file w) = log w.
Proof.
  unfold pauseDownloadingFile.
  destruct (getDownloadingFile file w) as [d|]; [|done].
  by destruct (truthy_bool (df_downloading d)).
Qed.

Lemma log_resetDownloadingFile file w : log (resetDownloadingFile file w) = log w.
Proof.
  unfold resetDownloadingFile. by destruct (downloadingFiles w !! fileKeyOf file).
Qed.

Lemma log_apply_ops ops w : log (apply_ops ops w) = log w.
Proof.
  revert w. induction ops as [|op ops IH]; intros w; [done|].
  unfold apply_ops in *. simpl. rewrite IH.
  destruct op; simpl;
    auto using log_pauseDownloadingFile, log_resetDownloadingFile.
Qed.

Lemma registry_ok_set file w : registry_ok w → registry_ok (setDownloadingFile file w).
Proof.
  intros Hok key f. unfold setDownloadingFile. simpl.
  rewrite lookup_insert. case_decide as Hk.
  - intros [= <-]. done.
  - apply Hok.
Qed.

Lemma registry_ok_pause file w : registry_ok w → registry_ok (pauseDownloadingFile file w).
Proof.
  intros Hok. unfold pauseDownloadingFile.
  destruct (getDownloadingFile file w) as [d|]; [|done].
  destruct (truthy_bool (df_downloading d)); [|done].
  by apply registry_ok_set.
Qed.

Lemma registry_ok_reset file w : registry_ok w → registry_ok (resetDownloadingFile file w).
Proof.
  intros Hok. unfold resetDownloadingFile.
  destruct (downloadingFiles w !! fileKeyOf file); [|done].
  intros key f. simpl. rewrite lookup_delete. case_decide; [done | apply Hok].
Qed.

Lemma registry_ok_emit ev w : registry_ok w → registry_ok (emit ev w).
Proof. intros Hok. exact Hok. Qed.

Lemma registry_ok_apply_ops ops w : registry_ok w → registry_ok (apply_ops ops w).
Proof.
  revert w. induction ops as [|op ops IH]; intros w Hok; [done|].
  unfold apply_ops in *. simpl. apply IH.
  destruct op; simpl;
    auto using registry_ok_set, registry_ok_pause, registry_ok_reset.
Qed.

Lemma feed_finished oracle w : feed oracle (w, Finished) = (w, Finished).
Proof. by destruct oracle. Qed.

(** The head of the loop either leaves the world as it is and ends the
    task, or records one request and suspends. *)
Lemma loop_head_cases env snap part w :
  loop_head env snap part w = (w, Finished) ∨
  ∃ local,
    part < s_partsCount snap ∧
    getDownloadingFile (te_file env) w = Some local ∧
    is_false (df_downloading local) = false ∧
    loop_head env snap part w =
    (emit (EvDownloadFilePart part (part_request snap part)) w,
     Awaiting {| run_env := env; run_snap := snap; run_part := part;
                 run_local := local |}).
Proof.
  unfold loop_head.
  destruct (Z.ltb_spec part (s_partsCount snap)); [|by left].
  destruct (getDownloadingFile (te_file env) w) as [d|]; [|by left].
  destruct (is_false (df_downloading d)) eqn:Hf; [by left|].
  right. exists d. done.
Qed.

(** Bytes that arrive while the entry is registered are stored, the entry
    is rewritten with the part and its percentage, and the loop goes on. *)
Lemma on_reply_stored run bytes w d :
  getDownloadingFile (te_file (run_env run)) w = Some d →
  ∃ w' transfer,
    (transfer = [] ∨ ∃ type, transfer = [EvTransferBytesToFile (fileKeyOf d) type]) ∧
    log w' = log w ++ EvAddBytes (fileKeyOf d) bytes :: transfer ++
             [EvSetProgress (fileKeyOf d) (run_part run)
                (round_percent (run_part run + 1) (s_partsCount (run_snap run)))] ∧
    downloadingFiles w' =
      <[fileKeyOf d :=
          with_part_done (run_part run)
            (round_percent (run_part run + 1) (s_partsCount (run_snap run)))
            (let fileKey :=
               if run_part run =? s_partsCount (run_snap run) - 1
               then transferBytesToFile (fileKeyOf d)
                      (if String.prefix "image" (df_type d)
                          || truthy_str (s_sizeType (run_snap run))
                       then "image/jpeg" else df_type d)
               else None in
             if truthy_str fileKey then with_terminal fileKey d else d)]>
      (downloadingFiles w) ∧
    on_reply run (Resolved (Some bytes)) w =
    loop_head (run_env run) (run_snap run) (run_part run + 1) w'.
Proof.
  intros Hd. unfold on_reply. rewrite Hd.
  destruct (run_part run =? s_partsCount (run_snap run) - 1) eqn:Hlast.
  - eexists _,
      [EvTransferBytesToFile (fileKeyOf d)
         (if String.prefix "image" (df_type d) || truthy_str (s_sizeType (run_snap run))
          then "image/jpeg" else df_type d)].
    split_and!; [right; eexists; reflexivity | | | reflexivity].
    + simpl. rewrite <- !app_assoc.
      by destruct (truthy_str (transferBytesToFile _ _)).
    + simpl. by destruct (truthy_str (transferBytesToFile _ _)).
  - eexists _, [].
    split_and!; [by left | | | reflexivity].
    + simpl. rewrite <- !app_assoc. reflexivity.
    + reflexivity.
Qed.

(** A settled request either ends the task, with or without a refresh of
    the message, or stores the part and re-enters the loop. *)
Lemma on_reply_cases run reply w :
  on_reply run reply w = (w, Finished) ∨
  (reply = Rejected FILE_REFERENCE_EXPIRED ∧
   on_reply run reply w =
   (refreshMessage (te_folder (run_env run)) (te_messageId (run_env run))
      (pauseDownloadingFile (run_local run) w), Finished)) ∨
  ∃ bytes d w' transfer,
    reply = Resolved (Some bytes) ∧
    getDownloadingFile (te_file (run_env run)) w = Some d ∧
    (transfer = [] ∨ ∃ type, transfer = [EvTransferBytesToFile (fileKeyOf d) type]) ∧
    log w' = log w ++ EvAddBytes (fileKeyOf d) bytes :: transfer ++
             [EvSetProgress (fileKeyOf d) (run_part run)
                (round_percent (run_part run + 1) (s_partsCount (run_snap run)))] ∧
    downloadingFiles w' =
      <[fileKeyOf d :=
          with_part_done (run_part run)
            (round_percent (run_part run + 1) (s_partsCount (run_snap run)))
            (let fileKey :=
               if run_part run =? s_partsCount (run_snap run) - 1
               then transferBytesToFile (fileKeyOf d)
                      (if String.prefix "image" (df_type d)
                          || truthy_str (s_sizeType (run_snap run))
                       then "image/jpeg" else df_type d)
               else None in
             if truthy_str fileKey then with_terminal fileKey d else d)]>
      (downloadingFiles w) ∧
    on_reply run reply w = loop_head (run_env run) (run_snap run) (run_part run + 1) w'.
Proof.
  destruct reply as [[bytes|]|message]; [| by left |].
  - destruct (getDownloadingFile (te_file (run_env run)) w) as [d|] eqn:Hd.
    + right; right.
      destruct (on_reply_stored run bytes w d Hd) as (w' & transfer & Ht & Hlog & Hreg & Hrun).
      by exists bytes, d, w', transfer.
    + left. unfold on_reply. by rewrite Hd.
  - unfold on_reply.
    destruct (String.eqb_spec message FILE_REFERENCE_EXPIRED) as [->|]; [|by left].
    right; left. done.
Qed.

(** The calls of a task, from any head of its loop and against any
    environment, have one of the shapes of [task_events]. *)
Lemma feed_loop_head_events env snap oracle part w :
  ∃ evs, log (feed oracle (loop_head env snap part w)).1 = log w ++ evs ∧
         task_events env snap part evs.
Proof.
  revert part w. induction oracle as [|step oracle IH]; intros part w.
  - destruct (loop_head_cases env snap part w) as [-> | (local & Hlt & _ & _ & ->)].
    + exists []. rewrite app_nil_r. split; [done | constructor].
    + eexists. split; [reflexivity | by constructor].
  - destruct (loop_head_cases env snap part w) as [-> | (local & Hlt & _ & _ & ->)].
    + exists []. rewrite app_nil_r. split; [done | constructor].
    + cbn [feed].
      set (run := {| run_env := env; run_snap := snap; run_part := part;
                     run_local := local |}).
      set (w2 := apply_ops (es_during step) _).
      assert (log w2 = log w ++ [EvDownloadFilePart part (part_request snap part)])
        as Hw2 by (unfold w2; by rewrite log_apply_ops).
      destruct (on_reply_cases run (es_reply step) w2)
        as [-> | [[_ ->] | (bytes & d & w' & transfer & _ & _ & Ht & Hlog & _ & ->)]].
      * rewrite feed_finished. simpl. rewrite Hw2.
        eexists. split; [reflexivity | by constructor].
      * rewrite feed_finished. simpl. rewrite log_pauseDownloadingFile, Hw2.
        rewrite <- app_assoc. eexists. split; [reflexivity | by constructor].
      * destruct (IH (part + 1) w') as (evs & Hevs & Hshape).
        simpl in *. rewrite Hevs, Hlog, Hw2.
        eexists. split.
        -- rewrite <- !app_assoc. simpl. rewrite <- !app_assoc. simpl. reflexivity.
        -- by apply task_request_stored.
Qed.

Lemma requested_parts_app evs evs' :
  requested_parts (evs ++ evs') = requested_parts evs ++ requested_parts evs'.
Proof. apply omap_app. Qed.

Lemma requested_parts_transfer key (transfer : list Event) :
  (transfer = [] ∨ ∃ type, transfer = [EvTransferBytesToFile key type]) →
  requested_parts transfer = [].
Proof. by intros [-> | [type ->]]. Qed.

(** A task requests consecutive parts, from the head of its loop on and
    below the part count. *)
Lemma task_events_requested_parts env snap part evs :
  task_events env snap part evs →
  ∃ len, 0 ≤ len ∧ (len = 0 ∨ part + len ≤ s_partsCount snap) ∧
         requested_parts evs = seqZ part len.
Proof.
  induction 1 as [part | part Hlt | part Hlt | part key bytes transfer rest Hlt Ht _ IH].
  - exists 0. split; [lia|]. split; [by left | done].
  - exists 1. split; [lia|]. split; [right; lia | done].
  - exists 1. split; [lia|]. split; [right; lia | done].
  - destruct IH as (len & Hlen & Hbound & Hparts).
    exists (1 + len). split; [lia|]. split; [right; lia|].
    rewrite (seqZ_cons part (1 + len)) by lia.
    replace (Z.pred (1 + len)) with len by lia.
    replace (Z.succ part) with (part + 1) by lia.
    rewrite <- Hparts. unfold requested_parts. simpl. rewrite omap_app.
    by destruct Ht as [-> | [type ->]].
Qed.

(** Every request of a task carries the constants of its snapshot. *)
Lemma task_events_requests env snap part evs :
  task_events env snap part evs →
  ∀ p request, EvDownloadFilePart p request ∈ evs → request = part_request snap p.
Proof.
  induction 1 as [part | part Hlt | part Hlt | part key bytes transfer rest Hlt Ht _ IH];
    intros p request Hin.
  - by apply elem_of_nil in Hin.
  - apply list_elem_of_singleton in Hin. by injection Hin as <- <-.
  - apply elem_of_cons in Hin as [Hin | Hin]; [by injection Hin as <- <-|].
    apply list_elem_of_singleton in Hin. discriminate.
  - apply elem_of_cons in Hin as [Hin | Hin]; [by injection Hin as <- <-|].
    apply elem_of_cons in Hin as [Hin | Hin]; [discriminate|].
    apply elem_of_app in Hin as [Hin | Hin].
    + destruct Ht as [-> | [type ->]]; [by apply elem_of_nil in Hin|].
      apply list_elem_of_singleton in Hin. discriminate.
    + apply elem_of_cons in Hin as [Hin | Hin]; [discriminate | by apply IH].
Qed.

Lemma registry_ok_loop_head env snap part w :
  registry_ok w → registry_ok (loop_head env snap part w).1.
Proof.
  intros Hok.
  by destruct (loop_head_cases env snap part w) as [-> | (local & _ & _ & _ & ->)].
Qed.

Lemma registry_ok_on_reply run reply w :
  registry_ok w → registry_ok (on_reply run reply w).1.
Proof.
  intros Hok.
  destruct (on_reply_cases run reply w)
    as [-> | [[_ ->] | (bytes & d & w' & transfer & _ & _ & _ & _ & Hreg & ->)]].
  - done.
  - by apply registry_ok_emit, registry_ok_pause.
  - apply registry_ok_loop_head. intros key f. rewrite Hreg, lookup_insert.
    case_decide; [|apply Hok]. intros [= <-]. subst key. cbv zeta.
    by destruct (truthy_str (if run_part run =? _ then _ else _)).
Qed.

Lemma registry_ok_downloadFile messageId file folder w :
  registry_ok w → registry_ok (downloadFile messageId file folder w).
Proof.
  intros Hok. unfold downloadFile.
  destruct (truthy_str _ || truthy_bool _); [done|].
  intros key f. simpl. rewrite lookup_insert. case_decide; [|apply Hok].
  by intros [= <-].
Qed.

(** Whatever the application and the lanes do, every entry of the
    registry sits under its own key. *)
Lemma registry_ok_engine_run actions w :
  registry_ok w → registry_ok (engine_run actions w).
Proof.
  revert w. induction actions as [|a actions IH]; intros w Hok; [done|].
  unfold engine_run in *. simpl. apply IH.
  destruct a as [messageId file folder|file|file|lane|lane reply|lane]; simpl.
  - by apply registry_ok_downloadFile.
  - by apply registry_ok_pause.
  - by apply registry_ok_reset.
  - destruct (lane_head lane w) as [[env|run|]|]; try done.
    unfold task_start.
    destruct (getDownloadingFile (te_file env) w) as [d|]; [|done].
    pose proof (registry_ok_loop_head env
                  {| s_id := df_id d;
                     s_lastPart := default (-1) (df_lastPart d);
                     s_partsCount := default 0 (df_partsCount d);
                     s_partSize := default 0 (df_partSize d);
                     s_dc_id := df_dc_id d;
                     s_access_hash := df_access_hash d;
                     s_file_reference := df_file_reference d;
                     s_sizeType := df_sizeType d;
                     s_originalSizeType := df_originalSizeType d |}
                  (default (-1) (df_lastPart d) + 1) w Hok) as Hhead.
    simpl in *. by destruct (loop_head _ _ _ w).
  - destruct (lane_head lane w) as [[env|run|]|]; try done.
    pose proof (registry_ok_on_reply run reply w Hok) as Hreply.
    by destruct (on_reply run reply w).
  - by destruct (lane_head lane w) as [[env|run|]|].
Qed.

(** The percentages a task records are those of the consecutive parts it
    stores. *)
Lemma task_events_progress env snap part evs :
  task_events env snap part evs →
  ∃ len, 0 ≤ len ∧ (len = 0 ∨ part + len ≤ s_partsCount snap) ∧
         progress_updates evs =
         (λ q, round_percent (q + 1) (s_partsCount snap)) <$> seqZ part len.
Proof.
  induction 1 as [part | part Hlt | part Hlt | part key bytes transfer rest Hlt Ht _ IH].
  - exists 0. split; [lia|]. split; [by left | done].
  - exists 0. split; [lia|]. split; [by left | done].
  - exists 0. split; [lia|]. split; [by left | done].
  - destruct IH as (len & Hlen & Hbound & Hprogress).
    exists (1 + len). split; [lia|]. split; [right; lia|].
    rewrite (seqZ_cons part (1 + len)) by lia.
    replace (Z.pred (1 + len)) with len by lia.
    replace (Z.succ part) with (part + 1) by lia.
    rewrite fmap_cons, <- Hprogress. unfold progress_updates. simpl.
    rewrite omap_app. by destruct Ht as [-> | [type ->]].
Qed.

(** Left alone and served every part, a task on a registered entry that
    is not paused asks for every part up to the last and ends. *)
Lemma feed_undisturbed env snap chunks :
  ∀ part w d,
    getDownloadingFile (te_file env) w = Some d →
    is_false (df_downloading d) = false →
    part + Z.of_nat (length chunks) = s_partsCount snap →
    let result := feed (deliver <$> chunks) (loop_head env snap part w) in
    result.2 = Finished ∧
    requested_parts (log result.1) =
    requested_parts (log w) ++ seqZ part (Z.of_nat (length chunks)).
Proof.
  induction chunks as [|bytes chunks IH]; intros part w d Hd Hflag Hcount result.
  - unfold result, loop_head. simpl in *.
    destruct (Z.ltb_spec part (s_partsCount snap)); [lia|].
    simpl. by rewrite app_nil_r.
  - unfold result. cbn [length] in Hcount.
    destruct (loop_head_cases env snap part w) as [Hstop | (local & Hlt & Hlocal & _ & ->)].
    { exfalso. unfold loop_head in Hstop.
      destruct (Z.ltb_spec part (s_partsCount snap)); [|lia].
      rewrite Hd, Hflag in Hstop. injection Hstop as Hw.
      apply (f_equal (λ x, length (log x))) in Hw. simpl in Hw.
      rewrite length_app in Hw. simpl in Hw. lia. }
    rewrite fmap_cons. cbn [feed deliver es_during es_reply apply_ops foldl].
    set (run := {| run_env := env; run_snap := snap; run_part := part;
                   run_local := local |}).
    set (w1 := emit (EvDownloadFilePart part (part_request snap part)) w).
    destruct (on_reply_stored run bytes w1 d Hd)
      as (w' & transfer & Ht & Hlog & Hreg & ->).
    assert (requested_parts (log w') = requested_parts (log w) ++ [part]) as Hparts.
    { rewrite Hlog.
      change (EvAddBytes (fileKeyOf d) bytes :: transfer ++ ?l)
        with ([EvAddBytes (fileKeyOf d) bytes] ++ transfer ++ l).
      rewrite !requested_parts_app, (requested_parts_transfer (fileKeyOf d) transfer Ht).
      simpl. rewrite requested_parts_app. simpl. by rewrite !app_nil_r. }
    cbn [length].
    rewrite (seqZ_cons part (Z.of_nat (S (length chunks)))) by lia.
    replace (Z.pred (Z.of_nat (S (length chunks)))) with (Z.of_nat (length chunks)) by lia.
    replace (Z.succ part) with (part + 1) by lia.
    destruct chunks as [|bytes' chunks].
    + simpl. unfold loop_head. simpl in Hcount.
      destruct (Z.ltb_spec (part + 1) (s_partsCount snap)); [lia|].
      simpl. by rewrite Hparts.
    + assert (∃ d', getDownloadingFile (te_file env) w' = Some d' ∧
                    is_false (df_downloading d') = false) as (d' & Hd' & Hflag').
      { unfold getDownloadingFile. rewrite Hreg, lookup_insert.
        case_decide; [|by exists d].
        eexists. split; [reflexivity|]. simpl.
        destruct (Z.eqb_spec part (s_partsCount snap - 1)) as [Heq|_];
          [cbn [length] in Hcount; lia | done]. }
      destruct (IH (part + 1) w' d' Hd' Hflag') as [Hfin Hrest]; [lia|].
      split; [exact Hfin|].
      etrans; [exact Hrest|].
      rewrite Hparts, <- app_assoc. reflexivity.
Qed.

Lemma task_start_as_loop_head env w entry :
  getDownloadingFile (te_file env) w = Some entry →
  ∃ snap,
    s_lastPart snap = default (-1) (df_lastPart entry) ∧
    s_partsCount snap = default 0 (df_partsCount entry) ∧
    s_dc_id snap = df_dc_id entry ∧
    s_access_hash snap = df_access_hash entry ∧
    s_file_reference snap = df_file_reference entry ∧
    s_sizeType snap = df_sizeType entry ∧
    s_originalSizeType snap = df_originalSizeType entry ∧
    task_start env w = loop_head env snap (s_lastPart snap + 1) w.
Proof.
  intros Hentry. unfold task_start. rewrite Hentry.
  eexists. split_and!; [..|reflexivity]; reflexivity.
Qed.

(** With every [EvSetProgress] the task writes that part and percentage
    to the entry it has just re-read. *)
Lemma stored_part_is_written run bytes w d :
  getDownloadingFile (te_file (run_env run)) w = Some d →
  ∃ w' written,
    on_reply run (Resolved (Some bytes)) w =
      loop_head (run_env run) (run_snap run) (run_part run + 1) w' ∧
    downloadingFiles w' !! fileKeyOf d = Some written ∧
    df_lastPart written = Some (run_part run) ∧
    df_progress written =
      Some (round_percent (run_part run + 1) (s_partsCount (run_snap run))).
Proof.
  intros Hd.
  destruct (on_reply_stored run bytes w d Hd) as (w' & transfer & _ & _ & Hreg & Hrun).
  exists w'. eexists. split; [done|]. rewrite Hreg, lookup_insert_eq. done.
Qed.

(** The offsets a task asks for are its parts times its part size. *)
Lemma task_events_offsets env snap part evs :
  task_events env snap part evs →
  request_offsets evs = (λ p, p * s_partSize snap) <$> requested_parts evs.
Proof.
  induction 1 as [part | part Hlt | part Hlt | part key bytes transfer rest Hlt Ht _ IH];
    try done.
  unfold request_offsets, requested_parts in *.
  destruct Ht as [-> | [type ->]]; simpl; f_equal; exact IH.
Qed.

Lemma task_start_snapshot env w entry :
  getDownloadingFile (te_file env) w = Some entry →
  task_start env w =
  loop_head env (snapshot_of entry) (s_lastPart (snapshot_of entry) + 1) w.
Proof. intros Hentry. unfold task_start. by rewrite Hentry. Qed.

(** C1. A task started on an entry with last completed part [lastPart]
    (-1 when absent) requests the consecutive parts [lastPart + 1],
    [lastPart + 2], ... and none outside [lastPart + 1 .. partsCount - 1]:
    the requests it hands to the transport carry the id of the entry, its
    part size and the offsets [(lastPart + 1) * partSize],
    [(lastPart + 2) * partSize], ..., so that no byte of the parts
    [0 .. lastPart] is asked for again; the head of the loop reads the
    registry as it is at that moment, and when the entry is absent or its
    flag [downloading] is [false] the task ends without a request, also
    right after a part has been stored; left alone and served every part,
    the task requests every part from [lastPart + 1] to [partsCount - 1]
    and ends. *)
Theorem download_task_resumes_after_lastPart env oracle w entry :
  getDownloadingFile (te_file env) w = Some entry →
  let lastPart := default (-1) (df_lastPart entry) in
  let partsCount := default 0 (df_partsCount entry) in
  let partSize := default 0 (df_partSize entry) in
  (∃ evs len,
     log (run_task env oracle w).1 = log w ++ evs ∧
     0 ≤ len ∧
     requested_parts evs = seqZ (lastPart + 1) len ∧
     (∀ p, p ∈ requested_parts evs → lastPart < p < partsCount) ∧
     request_offsets evs = (λ p, p * partSize) <$> seqZ (lastPart + 1) len ∧
     (∀ part request, EvDownloadFilePart part request ∈ evs →
        rq_id request = df_id entry ∧
        rq_partSize request = partSize ∧
        rq_offsetSize request = part * partSize) ∧
     (0 < partSize →
      ∀ offset, offset ∈ request_offsets evs →
        (lastPart + 1) * partSize ≤ offset < partsCount * partSize)) ∧
  (∀ snap part w',
     (getDownloadingFile (te_file env) w' = None ∨
      ∃ e, getDownloadingFile (te_file env) w' = Some e ∧ df_downloading e = Some false) →
     loop_head env snap part w' = (w', Finished)) ∧
  (∀ run bytes w',
     run_env run = env →
     (getDownloadingFile (te_file env) w' = None ∨
      ∃ e, getDownloadingFile (te_file env) w' = Some e ∧ df_downloading e = Some false) →
     ∃ w'', on_reply run (Resolved (Some bytes)) w' = (w'', Finished) ∧
            requested_parts (log w'') = requested_parts (log w') ∧
            request_offsets (log w'') = request_offsets (log w')) ∧
  (∀ chunks,
     df_downloading entry ≠ Some false →
     lastPart + 1 + Z.of_nat (length chunks) = partsCount →
     let result := run_task env (deliver <$> chunks) w in
     result.2 = Finished ∧
     requested_parts (log result.1) =
     requested_parts (log w) ++ seqZ (lastPart + 1) (Z.of_nat (length chunks)) ∧
     request_offsets (log result.1) =
     request_offsets (log w) ++
     ((λ p, p * partSize) <$> seqZ (lastPart + 1) (Z.of_nat (length chunks)))).
Proof.
  intros Hentry lastPart partsCount partSize.
  pose proof (task_start_snapshot env w entry Hentry) as Hstart.
  set (snap := snapshot_of entry) in Hstart.
  assert (s_lastPart snap = lastPart) as Hlp by reflexivity.
  assert (s_partsCount snap = partsCount) as Hpc by reflexivity.
  assert (s_partSize snap = partSize) as Hps by reflexivity.
  assert (s_id snap = df_id entry) as Hid by reflexivity.
  clearbody snap.
  split_and!.
  - unfold run_task. rewrite Hstart.
    destruct (feed_loop_head_events env snap oracle (s_lastPart snap + 1) w)
      as (evs & Hlog & Hshape).
    destruct (task_events_requested_parts _ _ _ _ Hshape) as (len & Hlen & Hbound & Hparts).
    pose proof (task_events_offsets _ _ _ _ Hshape) as Hoffsets.
    rewrite Hparts, Hps, Hlp in Hoffsets. rewrite Hlp in Hparts. rewrite Hlp, Hpc in Hbound.
    exists evs, len.
    split_and!; [exact Hlog | exact Hlen | exact Hparts | | exact Hoffsets | |].
    + intros p Hp. rewrite Hparts in Hp. apply elem_of_seqZ in Hp. lia.
    + intros part request Hin.
      rewrite (task_events_requests _ _ _ _ Hshape part request Hin).
      cbn [part_request rq_id rq_partSize rq_offsetSize]. by rewrite Hid, Hps.
    + intros Hsize offset Hin. rewrite Hoffsets in Hin.
      apply list_elem_of_fmap in Hin as (p & -> & Hp). apply elem_of_seqZ in Hp. nia.
  - intros snap' part w' Hgone. unfold loop_head.
    destruct (part <? s_partsCount snap'); [|done].
    destruct Hgone as [-> | (e & -> & Hpaused)]; [done|].
    by rewrite Hpaused.
  - intros run bytes w' <- Hgone.
    destruct Hgone as [Hnone | (e & He & Hpaused)].
    + exists w'. unfold on_reply. by rewrite Hnone.
    + destruct (on_reply_cases run (Resolved (Some bytes)) w')
        as [-> | [[[=] _] | (b & d & w'' & transfer & _ & Hd & Ht & Hlog & Hreg & ->)]].
      * by exists w'.
      * exists w''. rewrite He in Hd. injection Hd as <-. split_and!.
        -- unfold loop_head.
           destruct (run_part run + 1 <? s_partsCount (run_snap run)); [|done].
           unfold getDownloadingFile. rewrite Hreg, lookup_insert.
           case_decide.
           ++ simpl.
              destruct (truthy_str (if run_part run =? _ then _ else _));
                simpl; [done | by rewrite Hpaused].
           ++ fold (getDownloadingFile (te_file (run_env run)) w'). rewrite He.
              by rewrite Hpaused.
        -- rewrite Hlog, requested_parts_app.
           change (EvAddBytes (fileKeyOf e) b :: transfer ++ ?l)
             with ([EvAddBytes (fileKeyOf e) b] ++ transfer ++ l).
           rewrite !requested_parts_app.
           rewrite (requested_parts_transfer (fileKeyOf e) transfer Ht).
           simpl. by rewrite app_nil_r.
        -- rewrite Hlog. unfold request_offsets. rewrite omap_app.
           destruct Ht as [-> | [type ->]]; simpl; by rewrite app_nil_r.
  - intros chunks Hflag Hcount. cbv zeta. unfold run_task. rewrite Hstart, Hlp.
    destruct (feed_undisturbed env snap chunks (lastPart + 1) w entry Hentry)
      as [Hfinished Hparts];
      [by destruct (df_downloading entry) as [[]|] | by rewrite Hpc |].
    split_and!; [exact Hfinished | exact Hparts |].
    destruct (feed_loop_head_events env snap (deliver <$> chunks) (lastPart + 1) w)
      as (evs & Hlog & Hshape).
    rewrite Hlog, requested_parts_app in Hparts. apply app_inv_head in Hparts.
    rewrite Hlog. unfold request_offsets at 1. rewrite omap_app.
    fold (request_offsets (log w)) (request_offsets evs).
    by rewrite (task_events_offsets _ _ _ _ Hshape), Hparts, Hps.
Qed.

(** C2. When the request of a part is rejected with
    [FILE_REFERENCE_EXPIRED] while the entry is still registered with its
    flag set, the entry keeps every field, [lastPart] included, except
    that [downloading] becomes [false]; one refresh of the message is
    requested; and the task is over, so that run issues no request any
    more, whatever the environment does next. *)
Theorem reference_expiry_pauses_download env snap part w0 w1 run ops entry :
  registry_ok w0 →
  loop_head env snap part w0 = (w1, Awaiting run) →
  getDownloadingFile (te_file env) (apply_ops ops w1) = Some entry →
  is_Some (df_downloading entry) →
  let w2 := apply_ops ops w1 in
  let result := on_reply run (Rejected FILE_REFERENCE_EXPIRED) w2 in
  result.2 = Finished ∧
  (∃ entry',
     getDownloadingFile (te_file env) result.1 = Some entry' ∧
     entry' = with_downloading (Some false) entry ∧
     df_downloading entry' = Some false ∧
     df_lastPart entry' = df_lastPart entry) ∧
  log result.1 = log w2 ++ [EvRefreshMessage (te_folder env) (te_messageId env)] ∧
  (∀ oracle, requested_parts (log (feed oracle result).1) = requested_parts (log w2)).
Proof.
  intros Hok Hhead Hentry [flag Hflag] w2 result.
  destruct (loop_head_cases env snap part w0) as [Hfin | (local & _ & Hlocal & _ & Hawait)].
  { rewrite Hfin in Hhead. discriminate. }
  rewrite Hawait in Hhead. injection Hhead as <- <-.
  assert (fileKeyOf local = fileKeyOf (te_file env)) as Hkey by (by apply Hok).
  assert (registry_ok w2) as Hok2.
  { apply registry_ok_apply_ops. by apply registry_ok_emit. }
  assert (result =
          (refreshMessage (te_folder env) (te_messageId env)
             (pauseDownloadingFile local w2), Finished)) as Hres.
  { unfold result, on_reply. by rewrite String.eqb_refl. }
  assert (getDownloadingFile (te_file env) (pauseDownloadingFile local w2)
          = Some (with_downloading (Some false) entry)) as Hpaused.
  { unfold pauseDownloadingFile, getDownloadingFile in *. rewrite Hkey.
    fold w2 in Hentry. rewrite Hentry, Hflag.
    assert (fileKeyOf entry = fileKeyOf (te_file env)) as Hkey' by (by apply Hok2).
    destruct flag; simpl.
    - by rewrite fileKeyOf_with_downloading, Hkey', lookup_insert_eq.
    - rewrite Hentry. f_equal. destruct entry; simpl in *; by subst. }
  rewrite Hres. simpl. split_and!.
  - done.
  - eexists. split; [exact Hpaused | done].
  - by rewrite log_pauseDownloadingFile.
  - intros oracle. rewrite feed_finished. simpl.
    rewrite log_pauseDownloadingFile, requested_parts_app. simpl.
    by rewrite app_nil_r.
Qed.

(** C8. [downloadFile] on a file whose registry entry has a terminal
    [fileKey], or is downloading, changes nothing: neither the registry
    nor the lanes. *)
Theorem downloadFile_noop_when_done_or_downloading messageId file folder w entry :
  getDownloadingFile file w = Some entry →
  truthy_str (df_fileKey entry) = true ∨ df_downloading entry = Some true →
  downloadFile messageId file folder w = w.
Proof.
  intros Hentry Hstate. unfold downloadFile. rewrite Hentry. simpl.
  destruct Hstate as [-> | ->]; [done|].
  by rewrite orb_true_r.
Qed.

(** C10. Every part request of one task carries the data-centre id, access
    hash, file reference, size type and original size type that the entry
    had when the task started, whatever is written to the registry while
    the task runs. *)
Theorem task_requests_use_locators_of_start env oracle w entry :
  getDownloadingFile (te_file env) w = Some entry →
  ∃ evs,
    log (run_task env oracle w).1 = log w ++ evs ∧
    ∀ part request, EvDownloadFilePart part request ∈ evs →
      rq_dc_id request = df_dc_id entry ∧
      rq_access_hash request = df_access_hash entry ∧
      rq_file_reference request = df_file_reference entry ∧
      rq_sizeType request = df_sizeType entry ∧
      rq_originalSizeType request = df_originalSizeType entry.
Proof.
  intros Hentry.
  destruct (task_start_as_loop_head env w entry Hentry)
    as (snap & _ & _ & Hdc & Hah & Hfr & Hst & Host & Hstart).
  unfold run_task. rewrite Hstart.
  destruct (feed_loop_head_events env snap oracle (s_lastPart snap + 1) w)
    as (evs & Hlog & Hshape).
  exists evs. split; [done|].
  intros p request Hin.
  rewrite (task_events_requests _ _ _ _ Hshape p request Hin). simpl.
  by rewrite Hdc, Hah, Hfr, Hst, Host.
Qed.

End DownloadProperties.

(** ** Stream reads *)

Section StreamProperties.
Context {ext : Externals}.

(** A read on an unknown key returns nothing and asks nothing. *)
Lemma downloadStreamFilePart_unknown oracle fileKey offsetSize partSize reference w :
  getStreamingFile fileKey w = None →
  downloadStreamFilePart oracle fileKey offsetSize partSize reference w = (w, Returned None).
Proof. intros Hnone. destruct oracle; simpl; by rewrite Hnone. Qed.

Lemma slog_apply_stream_ops ops w : slog (apply_stream_ops ops w) = slog w.
Proof.
  revert w. induction ops as [|op ops IH]; intros w; [done|].
  unfold apply_stream_ops in *. simpl. rewrite IH. by destruct op.
Qed.

Lemma sf_folder_merge_reference reference f :
  sf_folder (merge_reference reference f) = sf_folder f.
Proof. by destruct reference. Qed.

Lemma sf_messageId_merge_reference reference f :
  sf_messageId (merge_reference reference f) = sf_messageId f.
Proof. by destruct reference. Qed.

Lemma slog_store_after_refresh step offsetSize partSize reference f folder messageId w :
  slog (store_after_refresh step offsetSize partSize reference f folder messageId w) =
  slog w ++ [SEvDownloadFilePart (merge_reference reference f) offsetSize partSize;
             SEvRefreshMessage folder messageId].
Proof.
  unfold store_after_refresh.
  rewrite slog_apply_stream_ops. simpl.
  rewrite slog_apply_stream_ops. simpl. rewrite <- app_assoc.
  by destruct reference.
Qed.

(** A read rejected as expired on an entry with a folder and a message id
    asks for a refresh; once the refresh has made a reference available
    the same read is made again, and the read goes no further when it has
    not. *)
Lemma downloadStreamFilePart_expired step oracle fileKey offsetSize partSize reference w f
    folder messageId :
  getStreamingFile fileKey w = Some f →
  ss_reply step = Rejected FILE_REFERENCE_EXPIRED →
  sf_folder f = Some folder →
  sf_messageId f = Some messageId →
  messageId ≠ 0 →
  let w1 := store_after_refresh step offsetSize partSize reference f folder messageId w in
  downloadStreamFilePart (step :: oracle) fileKey offsetSize partSize reference w =
  if reference_available folder messageId (foldersMessages w1)
  then downloadStreamFilePart oracle fileKey offsetSize partSize
         (getFileReference folder messageId (df_id (sf_file f)) w1) w1
  else (w1, NotRefreshed).
Proof.
  intros Hf Hreply Hfolder Hid Hnz w1. cbn [downloadStreamFilePart].
  rewrite Hf, Hreply, String.eqb_refl.
  rewrite sf_folder_merge_reference, sf_messageId_merge_reference, Hfolder, Hid.
  destruct (Z.eqb_spec messageId 0) as [|_]; [done|].
  unfold refreshMessageThen.
  assert (df_id (sf_file (merge_reference reference f)) = df_id (sf_file f)) as ->
    by (by destruct reference).
  fold (store_after_refresh step offsetSize partSize reference f folder messageId w).
  fold w1.
  destruct (reference_available folder messageId (foldersMessages w1)); [|done].
  by destruct (downloadStreamFilePart oracle fileKey offsetSize partSize _ w1).
Qed.

(** A reference that [getFileReference] finds is available. *)
Lemma getFileReference_available folder messageId id w reference :
  getFileReference folder messageId id w = Some reference →
  reference_available folder messageId (foldersMessages w) = true.
Proof.
  unfold getFileReference, reference_available.
  destruct (foldersMessages w !! folder_id folder) as [messages|]; [|done].
  destruct (messages !! messageId) as [m|]; [|done].
  fold (message_medias m).
  destruct (find _ (message_medias m)) as [[media|]|] eqn:Hfind; try done.
  intros Hreference. apply find_some in Hfind as [Hin _].
  apply existsb_exists. exists (Some media). split; [done|]. by rewrite Hreference.
Qed.






End StreamProperties.

(** ** The upload pipeline *)

Section UploadProperties.
Context {ext : Externals}.

Lemma ulog_apply_sending_ops ops w : ulog (apply_sending_ops ops w) = ulog w.
Proof.
  revert w. induction ops as [|op ops IH]; intros w; [done|].
  unfold apply_sending_ops in *. simpl. rewrite IH. by destruct op.
Qed.

Lemma ulog_onUploadPart folder fileKey progress w :
  ulog (onUploadPart folder fileKey progress w) = ulog w.
Proof.
  unfold onUploadPart. by destruct (getSendingMessage (folder_id folder) w).
Qed.

Lemma unit_loop_cases ctx fileParams part w :
  (part < fp_partsCount fileParams ∧
   checkIsUploading (uc_folder ctx) (uc_fileKey ctx) w = true ∧
   unit_loop ctx fileParams part w =
   (uemit (UEvGetFilePart (uc_fileKey ctx)
             (part * fp_partSize fileParams) (part_end fileParams part)) w,
    UTransforming fileParams part)) ∨
  (part < fp_partsCount fileParams ∧
   checkIsUploading (uc_folder ctx) (uc_fileKey ctx) w = false ∧
   unit_loop ctx fileParams part w = (w, UReturned None)) ∨
  (fp_partsCount fileParams ≤ part ∧
   unit_loop ctx fileParams part w =
   (deleteFile (uc_fileKey ctx) w, UReturned (Some fileParams))).
Proof.
  unfold unit_loop.
  destruct (Z.ltb_spec part (fp_partsCount fileParams)); [|by right; right].
  destruct (checkIsUploading (uc_folder ctx) (uc_fileKey ctx) w); [by left|by right; left].
Qed.

(** The calls of the body against any environment, from any state of it,
    have the shape of [unit_trace]. *)
Lemma unit_feed_trace ctx oracle :
  ∀ w st,
    ∃ evs, ulog (unit_feed ctx oracle (w, st)).1 = ulog w ++ evs ∧
           match st with
           | UReturned _ => evs = []
           | _ => unit_trace ctx (position_of st) evs
           end.
Proof.
  induction oracle as [|step oracle IH]; intros w st.
  { exists []. rewrite app_nil_r. split; [done|]. destruct st; (done || constructor). }
  assert (∀ fileParams part w0,
            ∃ evs, ulog (unit_feed ctx oracle (unit_loop ctx fileParams part w0)).1
                   = ulog w0 ++ evs ∧
                   unit_trace ctx (AtLoop fileParams part) evs) as Hloop.
  { intros fileParams part w0.
    destruct (unit_loop_cases ctx fileParams part w0)
      as [(Hlt & _ & ->) | [(_ & _ & ->) | (Hge & ->)]].
    - destruct (IH (uemit (UEvGetFilePart (uc_fileKey ctx)
                             (part * fp_partSize fileParams)
                             (part_end fileParams part)) w0)
                   (UTransforming fileParams part)) as (evs & Hlog & Htrace).
      eexists. split; [rewrite Hlog; simpl; rewrite <- app_assoc; reflexivity|].
      by constructor.
    - destruct (IH w0 (UReturned None)) as (evs & Hlog & ->).
      exists []. split; [done | constructor].
    - destruct (IH (deleteFile (uc_fileKey ctx) w0) (UReturned (Some fileParams)))
        as (evs & Hlog & ->).
      eexists. split; [rewrite Hlog; simpl; rewrite app_nil_r; reflexivity|].
      by constructor. }
  cbn [unit_feed fst snd].
  set (w2 := apply_sending_ops (us_during step) w).
  assert (ulog w2 = ulog w) as Hw2 by apply ulog_apply_sending_ops.
  assert (∀ st0,
            (match st0 with UReturned _ => False | _ => True end) →
            ∃ evs, ulog (unit_feed ctx oracle (w2, st0)).1 = ulog w ++ evs ∧
                   unit_trace ctx (position_of st0) evs) as Hstay.
  { intros st0 Hst0. destruct (IH w2 st0) as (evs & Hlog & Htrace).
    exists evs. rewrite Hlog, Hw2. split; [done|]. by destruct st0. }
  destruct st as [|fileParams part|fileParams part|result].
  - destruct (us_reply step) as [fileParams| |]; try (by apply Hstay).
    simpl. destruct (Hloop fileParams 0 w2) as (evs & Hlog & Htrace).
    exists evs. rewrite Hlog, Hw2. split; [done|]. by econstructor.
  - destruct (us_reply step) as [|[bytes|]|]; try (by apply Hstay).
    + simpl.
      destruct (IH (uemit (UEvUploadFilePart (uc_fileKey ctx) part bytes) w2)
                  (UUploading fileParams part)) as (evs & Hlog & Htrace).
      eexists. split; [rewrite Hlog; simpl; rewrite Hw2, <- app_assoc; reflexivity|].
      by constructor.
    + simpl. destruct (IH w2 (UReturned None)) as (evs & Hlog & ->).
      exists []. rewrite Hlog, Hw2. split; [done | constructor].
  - destruct (us_reply step); try (by apply Hstay).
    simpl unit_resume.
    set (w3 := if isMainFile ctx then _ else w2).
    assert (ulog w3 = ulog w ++ progress_events ctx fileParams part) as Hw3.
    { unfold w3, progress_events. destruct (isMainFile ctx).
      - rewrite ulog_onUploadPart. simpl. by rewrite Hw2.
      - by rewrite Hw2, app_nil_r. }
    destruct (Hloop fileParams (part + 1) w3) as (evs & Hlog & Htrace).
    eexists. split; [rewrite Hlog, Hw3, <- app_assoc; reflexivity|].
    by constructor.
  - assert (unit_resume ctx (UReturned result) (us_reply step) w2
            = (w2, UReturned result)) as -> by (by destruct (us_reply step)).
    destruct (IH w2 (UReturned result)) as (evs & Hlog & ->).
    exists []. by rewrite Hlog, Hw2.
Qed.








Lemma checkIsUploading_onUploadPart folder' fileKey' folder fileKey progress w :
  checkIsUploading folder' fileKey' (onUploadPart folder fileKey progress w)
  = checkIsUploading folder' fileKey' w.
Proof.
  unfold onUploadPart.
  destruct (getSendingMessage (folder_id folder) w) as [m|] eqn:Hm; [|done].
  unfold checkIsUploading, getSendingMessage, setSendingMessage in *. simpl.
  rewrite lookup_insert. case_decide as Hid; [|done].
  rewrite <- Hid, Hm. simpl.
  destruct (im_inputFiles m) as [files|]; [|done]. simpl.
  induction files as [|f files IH]; [done|]. simpl. rewrite IH. f_equal.
  by destruct (key_is fileKey (if_fileKey f)).
Qed.




Lemma unit_trace_no_marker ctx pos evs :
  unit_trace ctx pos evs → created_messages evs = [].
Proof.
  induction 1 as [pos | fileParams evs _ IH | fileParams part evs Hlt _ IH
                 | fileParams part Hge | fileParams part bytes evs _ IH
                 | fileParams part evs _ IH]; simpl; try done.
  unfold created_messages, progress_events in *. rewrite omap_app, IH.
  by destruct (isMainFile ctx).
Qed.

(** A step of a body calls [createMessage] no more than the world
    before it. *)
Lemma created_messages_unit_resume ctx st reply w :
  created_messages (ulog (unit_resume ctx st reply w).1) = created_messages (ulog w).
Proof.
  destruct (unit_feed_trace ctx [{| us_during := []; us_reply := reply |}] w st)
    as (evs & Hlog & Htrace).
  simpl in Hlog. unfold apply_sending_ops in Hlog. simpl in Hlog.
  rewrite Hlog. unfold created_messages at 1. rewrite omap_app.
  fold (created_messages (ulog w)) (created_messages evs).
  assert (created_messages evs = []) as ->.
  { destruct st; [by eapply unit_trace_no_marker..|by subst]. }
  by rewrite app_nil_r.
Qed.






End UploadProperties.

(** * Instances *)

Lemma registry_ok_resumedWorld : registry_ok (ext:=exampleExternals) resumedWorld.
Proof.
  intros key file Hlookup. simpl in Hlookup.
  apply lookup_singleton_Some in Hlookup as [<- <-]. reflexivity.
Qed.

(** The task resumed after part 0 asks for parts 1 and 2, at the offsets
    524288 and 1048576. *)
Lemma download_task_resumes_after_lastPart_witness :
  getDownloadingFile (ext:=exampleExternals) movie resumedWorld = Some resumedMovie ∧
  ∃ evs len,
    log (run_task (ext:=exampleExternals) movieTask refreshed_mid_run resumedWorld).1
    = log resumedWorld ++ evs ∧
    0 ≤ len ∧
    requested_parts evs = seqZ (0 + 1) len ∧
    (∀ p, p ∈ requested_parts evs → 0 < p < 3) ∧
    request_offsets evs = (λ p, p * 524288) <$> seqZ (0 + 1) len ∧
    (∀ part request, EvDownloadFilePart part request ∈ evs →
       rq_id request = "movie" ∧
       rq_partSize request = 524288 ∧
       rq_offsetSize request = part * 524288) ∧
    (0 < 524288 →
     ∀ offset, offset ∈ request_offsets evs →
       (0 + 1) * 524288 ≤ offset < 3 * 524288).
Proof.
  split; [vm_compute; reflexivity|].
  refine (proj1 (download_task_resumes_after_lastPart (ext:=exampleExternals)
                   movieTask refreshed_mid_run resumedWorld resumedMovie _)).
  vm_compute; reflexivity.
Defined.

(** Part 1 of the movie is refused as expired. *)
Lemma reference_expiry_pauses_download_witness :
  let result :=
    on_reply (ext:=exampleExternals) movieRun (Rejected FILE_REFERENCE_EXPIRED)
      requestedWorld in
  result.2 = Finished ∧
  getDownloadingFile (ext:=exampleExternals) movie result.1
  = Some (with_downloading (Some false) resumedMovie) ∧
  log result.1 = log requestedWorld ++ [EvRefreshMessage inbox 7].
Proof.
  pose proof (reference_expiry_pauses_download (ext:=exampleExternals)
                movieTask movieSnapshot 1 resumedWorld requestedWorld movieRun []
                resumedMovie registry_ok_resumedWorld) as H.
  destruct H as (Hfin & (entry' & Hentry' & -> & _) & Hlog & _).
  - vm_compute; reflexivity.
  - vm_compute; reflexivity.
  - by eexists.
  - split; [exact Hfin|]. split; [exact Hentry' | exact Hlog].
Defined.

(** The movie is downloading: a second [downloadFile] changes nothing. *)
Lemma downloadFile_noop_when_done_or_downloading_witness :
  downloadFile (ext:=exampleExternals) 7 movie inbox resumedWorld = resumedWorld.
Proof.
  apply (downloadFile_noop_when_done_or_downloading (ext:=exampleExternals)
           7 movie inbox resumedWorld resumedMovie).
  - vm_compute; reflexivity.
  - right. reflexivity.
Defined.

(** The reference written to the registry while part 2 is on its way is
    not the one of the requests. *)
Lemma task_requests_use_locators_of_start_witness :
  ∃ evs,
    log (run_task (ext:=exampleExternals) movieTask refreshed_mid_run resumedWorld).1
    = log resumedWorld ++ evs ∧
    ∀ part request, EvDownloadFilePart part request ∈ evs →
      rq_dc_id request = Some 2 ∧
      rq_access_hash request = Some "ah" ∧
      rq_file_reference request = Some [x01] ∧
      rq_sizeType request = None ∧
      rq_originalSizeType request = None.
Proof.
  apply (task_requests_use_locators_of_start (ext:=exampleExternals)
           movieTask refreshed_mid_run resumedWorld resumedMovie).
  vm_compute; reflexivity.
Defined.


(** C5. In the race of a pause and a second [downloadFile] with a part on
    its way, two tasks run for the movie: both ask for parts 0 and 1, and
    the last completed part recorded in the registry goes from 0 to 1 and
    back to 0. *)
Theorem lastPart_regresses_in_pause_resume_race :
  (λ entry, entry ≫= df_lastPart)
    <$> entry_history (ext:=exampleExternals) movie pause_resume_race emptyWorld
  = [None; None; None; None; None; None; Some 0; Some 1; Some 0] ∧
  requested_parts (log (engine_run (ext:=exampleExternals) pause_resume_race emptyWorld))
  = [0; 0; 1; 2; 1].
Proof. split; vm_compute; reflexivity. Qed.

(** C9. The progress written to the entry of a file does not only grow.
    In the race of a pause and a second [downloadFile] with a part on its
    way, the two tasks that run for the movie write 33, 67 and then 33
    again to its entry; and in one upload of an input file whose thumbnail
    is stored under the key of the file, the first part of the thumbnail,
    acknowledged after the last part of the file, sets the progress of the
    file from 100 back to 50. *)
Theorem progress_regresses_in_pause_resume_race :
  (λ entry, entry ≫= df_progress)
    <$> entry_history (ext:=exampleExternals) movie pause_resume_race emptyWorld
  = [None; None; None; None; None; None;
     Some (Integer 33); Some (Integer 67); Some (Integer 33)] ∧
  progress_updates (log (engine_run (ext:=exampleExternals) pause_resume_race emptyWorld))
  = [Integer 33; Integer 67; Integer 33] ∧
  let result :=
    pass_run (ext:=exampleExternals) selfThumbPass thumbnail_after_main selfThumbWorld in
  upload_progress (ulog result.1) = [Integer 50; Integer 100; Integer 50] ∧
  (getSendingMessage 1 result.1 ≫= im_inputFiles)
  = Some [with_progress (Integer 50) selfThumb].
Proof. vm_compute. repeat split. Qed.




(** * Further properties *)

Set Warnings "-clear-no-such-hyp".

(** ** The download registry *)

Section RegistryProperties.
Context {ext : Externals}.

(** X1. What [setDownloadingFile] stores is what [getDownloadingFile]
    returns for that key; entries under other keys stay; a second write
    under the same key replaces the first, so one file has one entry. *)
Theorem setDownloadingFile_round_trip file w :
  getDownloadingFile file (setDownloadingFile file w) = Some file ∧
  (∀ other, fileKeyOf other ≠ fileKeyOf file →
     getDownloadingFile other (setDownloadingFile file w) = getDownloadingFile other w) ∧
  (∀ file', fileKeyOf file' = fileKeyOf file →
     setDownloadingFile file' (setDownloadingFile file w) = setDownloadingFile file' w ∧
     getDownloadingFile file (setDownloadingFile file' (setDownloadingFile file w))
     = Some file') ∧
  (registry_ok w → registry_ok (setDownloadingFile file w)).
Proof.
  split_and!.
  - apply lookup_insert_eq.
  - intros other Hne. unfold getDownloadingFile. simpl. by rewrite lookup_insert_ne.
  - intros file' Hkey. split.
    + unfold setDownloadingFile, set_downloadingFiles. simpl.
      by rewrite Hkey, insert_insert_eq.
    + unfold getDownloadingFile. simpl. rewrite Hkey. apply lookup_insert_eq.
  - apply registry_ok_set.
Qed.

(** X2. [pauseDownloadingFile] clears the flag [downloading] of the entry
    of the file and changes nothing else: no other field, no other entry,
    neither lanes nor calls; without an entry, or on an entry that is not
    downloading, it does nothing; pausing twice is pausing once. *)
Theorem pauseDownloadingFile_only_clears_flag file w :
  registry_ok w →
  match getDownloadingFile file w with
  | Some d =>
      getDownloadingFile file (pauseDownloadingFile file w)
      = Some (if truthy_bool (df_downloading d)
              then with_downloading (Some false) d else d) ∧
      (truthy_bool (df_downloading d) = false → pauseDownloadingFile file w = w)
  | None => pauseDownloadingFile file w = w
  end ∧
  (∀ other, fileKeyOf other ≠ fileKeyOf file →
     getDownloadingFile other (pauseDownloadingFile file w) = getDownloadingFile other w) ∧
  pauseDownloadingFile file (pauseDownloadingFile file w) = pauseDownloadingFile file w ∧
  lanes (pauseDownloadingFile file w) = lanes w ∧
  log (pauseDownloadingFile file w) = log w.
Proof.
  intros Hok.
  destruct (getDownloadingFile file w) as [d|] eqn:Hd.
  - assert (fileKeyOf d = fileKeyOf file) as Hkey by (by apply Hok).
    destruct (truthy_bool (df_downloading d)) eqn:Hflag.
    + assert (pauseDownloadingFile file w
              = setDownloadingFile (with_downloading (Some false) d) w) as Hp
        by (unfold pauseDownloadingFile; by rewrite Hd, Hflag).
      assert (getDownloadingFile file
                (setDownloadingFile (with_downloading (Some false) d) w)
              = Some (with_downloading (Some false) d)) as Hget.
      { unfold getDownloadingFile. simpl.
        rewrite fileKeyOf_with_downloading, Hkey. apply lookup_insert_eq. }
      rewrite Hp. split_and!; try done.
      * intros other Hne. unfold getDownloadingFile. simpl.
        rewrite fileKeyOf_with_downloading, Hkey. by rewrite lookup_insert_ne.
      * unfold pauseDownloadingFile. by rewrite Hget.
    + assert (pauseDownloadingFile file w = w) as Hp
        by (unfold pauseDownloadingFile; by rewrite Hd, Hflag).
      rewrite !Hp. by rewrite Hd.
  - assert (pauseDownloadingFile file w = w) as Hp
      by (unfold pauseDownloadingFile; by rewrite Hd).
    by rewrite !Hp.
Qed.

Lemma getDownloadingFile_reset file w :
  getDownloadingFile file (resetDownloadingFile file w) = None.
Proof.
  unfold resetDownloadingFile, getDownloadingFile.
  destruct (downloadingFiles w !! fileKeyOf file) eqn:Hd; [|done].
  apply lookup_delete_eq.
Qed.

(** X3. After [resetDownloadingFile] the file has no entry and the other
    entries are as before; a task of that file that starts afterwards
    ends at once, and a part that arrives afterwards for a task already
    under way is dropped: nothing is stored, nothing is written, no part
    is requested any more. *)
Theorem resetDownloadingFile_stops_the_download file w :
  getDownloadingFile file (resetDownloadingFile file w) = None ∧
  (∀ other, fileKeyOf other ≠ fileKeyOf file →
     getDownloadingFile other (resetDownloadingFile file w) = getDownloadingFile other w) ∧
  (∀ env, fileKeyOf (te_file env) = fileKeyOf file →
     task_start env (resetDownloadingFile file w) = (resetDownloadingFile file w, Finished)) ∧
  (∀ run bytes, fileKeyOf (te_file (run_env run)) = fileKeyOf file →
     on_reply run (Resolved bytes) (resetDownloadingFile file w)
     = (resetDownloadingFile file w, Finished)).
Proof.
  pose proof (getDownloadingFile_reset file w) as Hgone.
  split_and!.
  - exact Hgone.
  - intros other Hne. unfold resetDownloadingFile, getDownloadingFile.
    destruct (downloadingFiles w !! fileKeyOf file); [|done].
    simpl. by rewrite lookup_delete_ne.
  - intros env Hkey. unfold task_start, getDownloadingFile in *. by rewrite Hkey, Hgone.
  - intros run bytes Hkey. unfold on_reply, getDownloadingFile in *.
    rewrite Hkey, Hgone. by destruct bytes.
Qed.

Lemma elem_of_requested_parts part request evs :
  EvDownloadFilePart part request ∈ evs → part ∈ requested_parts evs.
Proof.
  intros Hin. unfold requested_parts. apply list_elem_of_omap.
  by exists (EvDownloadFilePart part request).
Qed.


Lemma ceil_div_bounds a b :
  0 < b → (ceil_div a b - 1) * b < a ≤ ceil_div a b * b.
Proof.
  intros Hb. unfold ceil_div.
  pose proof (Z.div_mod (- a) b ltac:(lia)) as Hdm.
  pose proof (Z.mod_pos_bound (- a) b Hb) as Hmod. nia.
Qed.

(** X5. A first download of a file of [size] bytes works in parts of
    [KB512] bytes: every part request of its task asks for [KB512] bytes
    at an offset that is a multiple of [KB512] inside the file, and a task
    that is left alone and served asks for the offsets 0, [KB512],
    2 [KB512], ... of all [ceil (size / KB512)] parts, which cover the
    file. *)
Theorem first_download_requests_lie_in_the_file messageId file folder w oracle :
  getDownloadingFile file w = None →
  truthy_str (df_fileKey file) = false →
  truthy_bool (df_downloading file) = false →
  df_lastPart file = None →
  0 < KB512 →
  0 ≤ df_size file →
  let env := {| te_messageId := messageId; te_file := file; te_folder := folder |} in
  let w1 := downloadFile messageId file folder w in
  let partsCount := ceil_div (df_size file) KB512 in
  (partsCount - 1) * KB512 < df_size file ≤ partsCount * KB512 ∧
  (∃ evs,
     log (run_task env oracle w1).1 = log w ++ evs ∧
     ∀ part request, EvDownloadFilePart part request ∈ evs →
       rq_partSize request = KB512 ∧
       rq_offsetSize request = part * KB512 ∧
       0 ≤ rq_offsetSize request < df_size file) ∧
  (∀ chunks,
     Z.of_nat (length chunks) = partsCount →
     ∃ evs,
       log (run_task env (deliver <$> chunks) w1).1 = log w ++ evs ∧
       request_offsets evs = (λ p, p * KB512) <$> seqZ 0 partsCount).
Proof.
  intros Hnone Hkey Hflag Hlast Hpos Hsize env w1 partsCount.
  pose proof (ceil_div_bounds (df_size file) KB512 Hpos) as Hbounds.
  fold partsCount in Hbounds.
  set (entry := with_geometry KB512 partsCount
                  (with_downloading (Some true) (with_locators file file))).
  assert (w1 = set_lanes (add (Queued env) (lanes w)) (setDownloadingFile entry w)) as Hw1.
  { unfold w1, downloadFile. rewrite Hnone. simpl. rewrite Hkey, Hflag. simpl.
    by rewrite Hlast. }
  assert (getDownloadingFile file w1 = Some entry) as Hentry.
  { rewrite Hw1. apply lookup_insert_eq. }
  pose proof (task_start_snapshot env w1 entry Hentry) as Hstart.
  assert (s_partSize (snapshot_of entry) = KB512) as Hsps by done.
  assert (s_lastPart (snapshot_of entry) = -1) as Hslp
    by (simpl; by rewrite Hlast).
  assert (s_partsCount (snapshot_of entry) = partsCount) as Hspc by done.
  assert (is_false (df_downloading entry) = false) as Hnotpaused by done.
  remember (snapshot_of entry) as snap eqn:Hsnap. clear Hsnap.
  rewrite Hslp in Hstart. clearbody entry. clear Hw1.
  assert (log w1 = log w) as Hlogw1.
  { unfold w1, downloadFile. by destruct (truthy_str _ || truthy_bool _). }
  clearbody w1.
  split; [exact Hbounds|]. split.
  - unfold run_task. rewrite Hstart.
    destruct (feed_loop_head_events env snap oracle (-1 + 1) w1)
      as (evs & Hlog & Hshape).
    exists evs. split; [by rewrite Hlog, Hlogw1|].
    intros part request Hin.
    rewrite (task_events_requests _ _ _ _ Hshape part request Hin).
    cbn [part_request rq_partSize rq_offsetSize].
    rewrite Hsps. split; [done|]. split; [done|].
    destruct (task_events_requested_parts _ _ _ _ Hshape) as (len & Hlen & Hb & Hparts).
    apply elem_of_requested_parts in Hin. rewrite Hparts in Hin.
    apply elem_of_seqZ in Hin. rewrite Hspc in Hb. nia.
  - intros chunks Hcount. unfold run_task. rewrite Hstart.
    destruct (feed_loop_head_events env snap (deliver <$> chunks) (-1 + 1) w1)
      as (evs & Hlog & Hshape).
    exists evs. split; [by rewrite Hlog, Hlogw1|].
    rewrite (task_events_offsets _ _ _ _ Hshape), Hsps. f_equal.
    destruct (feed_undisturbed env snap chunks (-1 + 1) w1 entry
                Hentry Hnotpaused) as [_ Hall].
    { rewrite Hspc. lia. }
    rewrite Hlog, requested_parts_app in Hall.
    apply app_inv_head in Hall. rewrite Hall. by rewrite Hcount.
Qed.

(** The entry of a task that is left alone and served every part, after
    its last part. *)
Lemma feed_undisturbed_entry env snap chunks :
  ∀ part w d,
    registry_ok w →
    getDownloadingFile (te_file env) w = Some d →
    is_false (df_downloading d) = false →
    chunks ≠ [] →
    part + Z.of_nat (length chunks) = s_partsCount snap →
    let result := feed (deliver <$> chunks) (loop_head env snap part w) in
    let fileKey := transferBytesToFile (fileKeyOf d) (artifact_type snap d) in
    getDownloadingFile (te_file env) result.1 =
    Some (with_part_done (s_partsCount snap - 1)
            (round_percent (s_partsCount snap) (s_partsCount snap))
            (if truthy_str fileKey then with_terminal fileKey d else d)).
Proof.
  induction chunks as [|bytes chunks IH]; intros part w d Hok Hd Hflag Hne Hcount;
    [done|].
  cbn [length] in Hcount.
  assert (fileKeyOf d = fileKeyOf (te_file env)) as Hkey by (by apply Hok).
  destruct (loop_head_cases env snap part w) as [Hstop | (local & Hlt & Hlocal & _ & ->)].
  { exfalso. unfold loop_head in Hstop.
    destruct (Z.ltb_spec part (s_partsCount snap)); [|lia].
    rewrite Hd, Hflag in Hstop. injection Hstop as Hw.
    apply (f_equal (λ x, length (log x))) in Hw. simpl in Hw.
    rewrite length_app in Hw. simpl in Hw. lia. }
  rewrite fmap_cons. cbn [feed deliver es_during es_reply apply_ops foldl].
  set (run := {| run_env := env; run_snap := snap; run_part := part;
                 run_local := local |}).
  set (w1 := emit (EvDownloadFilePart part (part_request snap part)) w).
  destruct (on_reply_stored run bytes w1 d Hd) as (w' & transfer & _ & _ & Hreg & ->).
  cbn [run_env run_snap run_part run] in *.
  destruct chunks as [|bytes' chunks].
  - simpl in Hcount. assert (part = s_partsCount snap - 1) as Hlast by lia.
    cbn [fmap list_fmap feed]. unfold loop_head.
    destruct (Z.ltb_spec (part + 1) (s_partsCount snap)); [lia|].
    simpl. unfold getDownloadingFile. rewrite Hreg, <- Hkey, lookup_insert_eq.
    unfold artifact_type. cbn [run_part run_snap run].
    rewrite <- Hlast. rewrite Z.eqb_refl.
    replace (part + 1) with (s_partsCount snap) by lia. by rewrite Hlast.
  - assert ((part =? s_partsCount snap - 1) = false) as Hnotlast.
    { apply Z.eqb_neq. cbn [length] in Hcount. lia. }
    rewrite Hnotlast in Hreg. simpl in Hreg.
    set (d1 := with_part_done part (round_percent (part + 1) (s_partsCount snap)) d) in *.
    assert (registry_ok w') as Hok'.
    { intros key f. rewrite Hreg, lookup_insert. case_decide; [|apply Hok].
      by intros [= <-]. }
    assert (getDownloadingFile (te_file env) w' = Some d1) as Hd1.
    { unfold getDownloadingFile. rewrite Hreg, <- Hkey. apply lookup_insert_eq. }
    pose proof (IH (part + 1) w' d1 Hok' Hd1 Hflag ltac:(done) ltac:(lia)) as Hfinal.
    cbv zeta in Hfinal. etrans; [exact Hfinal|].
    unfold d1, artifact_type, fileKeyOf. simpl.
    by destruct (truthy_str _).
Qed.

(** X6. A task that is left alone and served every remaining part leaves
    the entry with the last part as [lastPart] and 100 as [progress];
    [transferBytesToFile] is called for the last part, with the type
    [image/jpeg] when the entry's type begins with [image] or the task has
    a size type and with the entry's type otherwise; when it returns a
    key, that key becomes the entry's [fileKey], [downloading] becomes
    [false], and a later [downloadFile] for the file changes nothing. *)
Theorem undisturbed_download_completes env chunks w entry :
  registry_ok w →
  getDownloadingFile (te_file env) w = Some entry →
  df_downloading entry ≠ Some false →
  -1 ≤ default (-1) (df_lastPart entry) →
  chunks ≠ [] →
  default (-1) (df_lastPart entry) + 1 + Z.of_nat (length chunks)
  = default 0 (df_partsCount entry) →
  let result := run_task env (deliver <$> chunks) w in
  let type :=
    if String.prefix "image" (df_type entry) || truthy_str (df_sizeType entry)
    then "image/jpeg" else df_type entry in
  let fileKey := transferBytesToFile (fileKeyOf entry) type in
  result.2 = Finished ∧
  ∃ final,
    getDownloadingFile (te_file env) result.1 = Some final ∧
    df_lastPart final = Some (default 0 (df_partsCount entry) - 1) ∧
    df_progress final = Some (Integer 100) ∧
    (truthy_str fileKey = true →
       df_fileKey final = fileKey ∧ df_downloading final = Some false ∧
       ∀ messageId folder,
         downloadFile messageId (te_file env) folder result.1 = result.1) ∧
    (truthy_str fileKey = false →
       df_fileKey final = df_fileKey entry ∧
       df_downloading final = df_downloading entry).
Proof.
  intros Hok Hentry Hflag Hlp Hne Hcount result type fileKey.
  assert (is_false (df_downloading entry) = false) as Hnotpaused
    by (by destruct (df_downloading entry) as [[]|]).
  pose proof (task_start_snapshot env w entry Hentry) as Hstart.
  assert (0 < default 0 (df_partsCount entry)) as Hpos.
  { destruct chunks; [done|]. cbn [length] in Hcount. lia. }
  split.
  - unfold result, run_task. rewrite Hstart.
    by apply (feed_undisturbed env (snapshot_of entry) chunks _ w entry).
  - pose proof (feed_undisturbed_entry env (snapshot_of entry) chunks
                  (s_lastPart (snapshot_of entry) + 1) w entry Hok Hentry Hnotpaused
                  Hne Hcount) as Hfinal.
    cbv zeta in Hfinal. unfold result, run_task. rewrite Hstart.
    eexists. split; [exact Hfinal|].
    change (transferBytesToFile (fileKeyOf entry) (artifact_type (snapshot_of entry) entry))
      with fileKey.
    cbn [s_partsCount snapshot_of]. rewrite (round_percent_all _ Hpos).
    split_and!; try done.
    + intros Htruthy. rewrite Htruthy. split_and!; try done.
      intros messageId folder. unfold downloadFile. rewrite Hfinal.
      change (transferBytesToFile (fileKeyOf entry)
                (artifact_type (snapshot_of entry) entry)) with fileKey.
      rewrite Htruthy. simpl. by rewrite Htruthy.
    + intros Hfalsy. by rewrite Hfalsy.
Qed.

(** X7. A part request that fails with another message than
    [FILE_REFERENCE_EXPIRED], or resolves with nothing, ends the task and
    changes nothing: no refresh, no write.  The entry therefore stays
    marked as downloading, and [downloadFile] for that file does nothing
    until [pauseDownloadingFile] has cleared the flag; after it,
    [downloadFile] adds a task again. *)
Theorem other_failure_leaves_download_marked run message w entry messageId folder :
  message ≠ FILE_REFERENCE_EXPIRED →
  registry_ok w →
  getDownloadingFile (te_file (run_env run)) w = Some entry →
  df_downloading entry = Some true →
  truthy_str (df_fileKey entry) = false →
  let file := te_file (run_env run) in
  on_reply run (Rejected message) w = (w, Finished) ∧
  on_reply run (Resolved None) w = (w, Finished) ∧
  downloadFile messageId file folder w = w ∧
  lanes (downloadFile messageId file folder (pauseDownloadingFile file w))
  = add (Queued {| te_messageId := messageId; te_file := file; te_folder := folder |})
        (lanes w).
Proof.
  intros Hmessage Hok Hentry Hflag Hkey file. subst file.
  set (file := te_file (run_env run)) in *. clearbody file. split_and!.
  - unfold on_reply. by destruct (String.eqb_spec message FILE_REFERENCE_EXPIRED).
  - done.
  - unfold downloadFile. rewrite Hentry. simpl. rewrite Hflag.
    by rewrite orb_true_r.
  - assert (fileKeyOf entry = fileKeyOf file) as Hk by (by apply Hok).
    assert (pauseDownloadingFile file w
            = setDownloadingFile (with_downloading (Some false) entry) w) as Hp
      by (unfold pauseDownloadingFile; by rewrite Hentry, Hflag).
    assert (getDownloadingFile file (pauseDownloadingFile file w)
            = Some (with_downloading (Some false) entry)) as Hpaused.
    { rewrite Hp. unfold getDownloadingFile. simpl.
      rewrite fileKeyOf_with_downloading, Hk. apply lookup_insert_eq. }
    unfold downloadFile. rewrite Hpaused. simpl. rewrite Hkey. simpl.
    by rewrite Hp.
Qed.

Lemma lanes_loop_head env snap part w : lanes (loop_head env snap part w).1 = lanes w.
Proof.
  by destruct (loop_head_cases env snap part w) as [-> | (local & _ & _ & _ & ->)].
Qed.

Lemma lanes_pauseDownloadingFile file w : lanes (pauseDownloadingFile file w) = lanes w.
Proof.
  unfold pauseDownloadingFile.
  destruct (getDownloadingFile file w) as [d|]; [|done].
  by destruct (truthy_bool (df_downloading d)).
Qed.

Lemma lanes_on_reply run reply w : lanes (on_reply run reply w).1 = lanes w.
Proof.
  unfold on_reply. destruct reply as [[bytes|]|message]; [|done|].
  - destruct (getDownloadingFile (te_file (run_env run)) w) as [d|]; [|done].
    rewrite lanes_loop_head. simpl. by destruct (run_part run =? _).
  - destruct (String.eqb message FILE_REFERENCE_EXPIRED); [|done].
    simpl. apply lanes_pauseDownloadingFile.
Qed.

Lemma lane_in_order_snoc lane env : lane_in_order lane → lane_in_order (lane ++ [Queued env]).
Proof.
  unfold lane_in_order. destruct lane as [|t lane]; simpl; [constructor|].
  intros Hlane. apply Forall_app. split; [done|]. repeat constructor. by exists env.
Qed.

Lemma running_in_order lane : lane_in_order lane → (running_in lane ≤ 1)%nat.
Proof.
  unfold lane_in_order, running_in. destruct lane as [|t lane]; simpl; [lia|].
  intros Hlane.
  assert (List.filter is_running lane = []) as Hnone.
  { induction Hlane as [|q lane [env ->] _ IH]; [done|]. simpl. exact IH. }
  destruct (is_running t); simpl; rewrite Hnone; simpl; lia.
Qed.

Lemma lanes_in_order_alter (f : list LaneTask → list LaneTask) lane w q :
  (∀ l, lane_in_order l → lane_in_order (f l)) →
  lanes_in_order w →
  queues q = alter f lane (queues (lanes w)) →
  Forall lane_in_order (queues q).
Proof.
  intros Hf Hw ->. unfold lanes_in_order in Hw.
  apply Forall_lookup. intros i l Hl.
  destruct (decide (i = lane)) as [->|Hne].
  - rewrite list_lookup_alter_eq in Hl.
    destruct (queues (lanes w) !! lane) as [l0|] eqn:Hl0; [|done].
    injection Hl as <-. apply Hf. by eapply Forall_lookup_1.
  - rewrite list_lookup_alter_ne in Hl by done. by eapply Forall_lookup_1.
Qed.

Lemma set_lane_head_keeps_lanes lane t w w' :
  lanes w' = lanes w →
  lanes_ok (lanes w) → lanes_in_order w →
  lanes_ok (lanes (set_lane_head lane t w')) ∧ lanes_in_order (set_lane_head lane t w').
Proof.
  intros Hsame [Hi Hl] Horder. split.
  - split; simpl; rewrite Hsame; [done | by rewrite length_alter].
  - eapply (lanes_in_order_alter _ lane w); [|done|simpl; by rewrite Hsame].
    intros [|t0 l]; by unfold lane_in_order.
Qed.

Lemma engine_step_keeps_lanes w a :
  lanes_ok (lanes w) → lanes_in_order w →
  lanes_ok (lanes (engine_step w a)) ∧ lanes_in_order (engine_step w a).
Proof.
  intros Hok Horder.
  destruct a as [messageId file folder|file|file|lane|lane reply|lane]; simpl.
  - unfold downloadFile. destruct (truthy_str _ || truthy_bool _); [done|].
    split; [by apply add_ok|]. simpl.
    eapply (lanes_in_order_alter _ _ w); [|done|reflexivity].
    intros l. apply lane_in_order_snoc.
  - unfold lanes_in_order. by rewrite lanes_pauseDownloadingFile.
  - unfold lanes_in_order, resetDownloadingFile.
    by destruct (downloadingFiles w !! fileKeyOf file).
  - destruct (lane_head lane w) as [[env|run|]|]; try done.
    destruct (task_start env w) as [w' st] eqn:Hstart.
    apply (set_lane_head_keeps_lanes lane _ w w'); [|done..].
    change w' with (w', st).1. rewrite <- Hstart.
    unfold task_start. destruct (getDownloadingFile (te_file env) w); [|done].
    apply lanes_loop_head.
  - destruct (lane_head lane w) as [[env|run|]|]; try done.
    destruct (on_reply run reply w) as [w' st] eqn:Hreply.
    apply (set_lane_head_keeps_lanes lane _ w w'); [|done..].
    change w' with (w', st).1. rewrite <- Hreply. apply lanes_on_reply.
  - destruct (lane_head lane w) as [[env|run|]|]; try done.
    split; [by apply complete_ok|]. simpl.
    eapply (lanes_in_order_alter _ lane w); [|done|reflexivity].
    intros [|t0 [|t1 l]]; unfold lane_in_order; simpl; try done.
    intros Hl. by apply Forall_inv_tail in Hl.
Qed.

(** X8. Whatever the application calls and however the requests settle,
    the scheduler keeps its four lanes and an index that points at one of
    them, only the head of a lane has started, and so at most four part
    requests are pending at any time. *)
Theorem engine_keeps_four_lanes actions :
  let w := engine_run actions emptyWorld in
  lanes_ok (lanes w) ∧ lanes_in_order w ∧ (running_tasks w ≤ 4)%nat.
Proof.
  intros w.
  assert (∀ w0, lanes_ok (lanes w0) → lanes_in_order w0 →
                lanes_ok (lanes (engine_run actions w0)) ∧
                lanes_in_order (engine_run actions w0)) as Hrun.
  { induction actions as [|a actions IH]; intros w0 Hok Horder; [done|].
    unfold engine_run in *. simpl.
    destruct (engine_step_keeps_lanes w0 a Hok Horder) as [Hok' Horder'].
    by apply IH. }
  destruct (Hrun emptyWorld) as [Hok Horder];
    [apply downloadingQueue_ok | repeat constructor |].
  fold w in Hok, Horder.
  split; [done|]. split; [done|].
  unfold running_tasks. destruct Hok as [_ Hlen].
  unfold lanes_in_order in Horder.
  assert (∀ ls : list (list LaneTask),
            Forall lane_in_order ls → (sum_list (running_in <$> ls) ≤ length ls)%nat)
    as Hsum.
  { induction 1 as [|l ls Hl _ IH]; [simpl; lia|].
    rewrite fmap_cons. pose proof (running_in_order l Hl) as Hone.
    change (sum_list (running_in l :: (running_in <$> ls)))
      with (running_in l + sum_list (running_in <$> ls))%nat.
    cbn [length]. lia. }
  specialize (Hsum _ Horder). by rewrite Hlen in Hsum.
Qed.

End RegistryProperties.

(** ** Stream reads, further *)

Section MoreStreamProperties.
Context {ext : Externals}.

Lemma streaming_ok_set f w :
  streaming_ok w → streaming_ok (setStreamingFile f w).
Proof.
  intros Hok key g. simpl. rewrite lookup_insert. case_decide; [|apply Hok].
  by intros [= <-].
Qed.

(** X9. [streamFile] registers the file under its key as streaming, with
    the folder and message of the call and the data-centre id, access
    hash and file reference of the file, leaves the other entries alone,
    and a read of that key then makes one request for that entry and
    returns what the transport delivers. *)
Theorem streamFile_registers_for_reading messageId file folder w :
  streaming_ok w →
  let w1 := streamFile messageId file folder w in
  streaming_ok w1 ∧
  (∀ key, key ≠ fileKeyOf file → getStreamingFile key w1 = getStreamingFile key w) ∧
  ∃ f,
    getStreamingFile (fileKeyOf file) w1 = Some f ∧
    sf_streaming f = Some true ∧
    sf_folder f = folder ∧
    sf_messageId f = Some messageId ∧
    df_file_reference (sf_file f) = df_file_reference file ∧
    df_dc_id (sf_file f) = df_dc_id file ∧
    df_access_hash (sf_file f) = df_access_hash file ∧
    ∀ offsetSize partSize bytes oracle,
      downloadStreamFilePart
        ({| ss_during := []; ss_reply := Resolved bytes; ss_refresh := [] |} :: oracle)
        (fileKeyOf file) offsetSize partSize None w1
      = (semit (SEvDownloadFilePart f offsetSize partSize) w1, Returned bytes).
Proof.
  intros Hok w1.
  set (previous :=
         default {| sf_file := file; sf_folder := folder; sf_messageId := Some messageId;
                    sf_streaming := None |}
                 (getStreamingFile (fileKeyOf file) w)).
  assert (fileKeyOf (sf_file previous) = fileKeyOf file) as Hkey.
  { unfold previous. destruct (getStreamingFile (fileKeyOf file) w) as [f0|] eqn:Hf0;
      [by apply Hok | done]. }
  assert (∃ f, w1 = setStreamingFile f w ∧ fileKeyOf (sf_file f) = fileKeyOf file ∧
               sf_streaming f = Some true ∧ sf_folder f = folder ∧
               sf_messageId f = Some messageId ∧
               df_file_reference (sf_file f) = df_file_reference file ∧
               df_dc_id (sf_file f) = df_dc_id file ∧
               df_access_hash (sf_file f) = df_access_hash file)
    as (f & Hw1 & Hfkey & Hs & Hfo & Hm & Hr & Hdc & Hah).
  { eexists. split; [reflexivity|]. split_and!; first [exact Hkey | done]. }
  split_and!.
  - rewrite Hw1. by apply streaming_ok_set.
  - intros key Hne. rewrite Hw1. unfold getStreamingFile. simpl.
    rewrite Hfkey. by rewrite lookup_insert_ne.
  - assert (getStreamingFile (fileKeyOf file) w1 = Some f) as Hf.
    { rewrite Hw1. unfold getStreamingFile. simpl. rewrite Hfkey.
      apply lookup_insert_eq. }
    exists f. split_and!; try done.
    intros offsetSize partSize bytes oracle. simpl. by rewrite Hf.
Qed.

(** X10. A stream read of a key that is not registered returns nothing
    and asks nothing of the transport; on a registered key it makes one
    request and returns the bytes the transport resolves with, or nothing
    when the transport fails with another message than
    [FILE_REFERENCE_EXPIRED], without a refresh and without a second
    request. *)
Theorem stream_read_makes_one_attempt fileKey offsetSize partSize step oracle w :
  (getStreamingFile fileKey w = None →
   ∀ reference,
     downloadStreamFilePart (step :: oracle) fileKey offsetSize partSize reference w
     = (w, Returned None)) ∧
  (∀ f, getStreamingFile fileKey w = Some f →
     let result :=
       downloadStreamFilePart (step :: oracle) fileKey offsetSize partSize None w in
     (∀ bytes, ss_reply step = Resolved bytes →
        result.2 = Returned bytes ∧
        slog result.1 = slog w ++ [SEvDownloadFilePart f offsetSize partSize]) ∧
     (∀ message, ss_reply step = Rejected message → message ≠ FILE_REFERENCE_EXPIRED →
        result.2 = Returned None ∧
        slog result.1 = slog w ++ [SEvDownloadFilePart f offsetSize partSize])).
Proof.
  split.
  - intros Hnone reference. by apply downloadStreamFilePart_unknown.
  - intros f Hf result. unfold result. cbn [downloadStreamFilePart]. rewrite Hf.
    cbn [merge_reference]. split.
    + intros bytes ->. simpl. by rewrite slog_apply_stream_ops.
    + intros message -> Hne.
      destruct (String.eqb_spec message FILE_REFERENCE_EXPIRED); [done|].
      simpl. by rewrite slog_apply_stream_ops.
Qed.

(** X11. [getFileReference] returns nothing when the folder or the message
    is not in the store or no media of the message has the id; otherwise
    it returns the reference of the first media with that id, the media of
    the message itself before those of its media messages. *)
Theorem getFileReference_finds_first_media folder messageId id w :
  let message :=
    match foldersMessages w !! folder_id folder with
    | Some messages => messages !! messageId
    | None => None
    end in
  (message = None → getFileReference folder messageId id w = None) ∧
  (∀ m, message = Some m →
     (∀ media, msg_media m = Some media → media_id media = id →
        getFileReference folder messageId id w = media_file_reference media) ∧
     (∀ before media after,
        message_medias m = before ++ Some media :: after →
        media_id media = id →
        (∀ other, Some other ∈ before → media_id other ≠ id) →
        getFileReference folder messageId id w = media_file_reference media) ∧
     ((∀ media, Some media ∈ message_medias m → media_id media ≠ id) →
        getFileReference folder messageId id w = None) ∧
     (∀ reference, getFileReference folder messageId id w = Some reference →
        ∃ media, Some media ∈ message_medias m ∧ media_id media = id ∧
                 media_file_reference media = Some reference)).
Proof.
  intros message. unfold getFileReference. fold message.
  set (matches := λ media : option Media,
         match media with Some m => String.eqb (media_id m) id | None => false end).
  assert (∀ (before : list (option Media)) media after,
            media_id media = id →
            (∀ other, Some other ∈ before → media_id other ≠ id) →
            find matches (before ++ Some media :: after) = Some (Some media)) as Hfirst.
  { intros before media after Hid Hbefore.
    induction before as [|[o|] before IH]; simpl.
    - by rewrite Hid, String.eqb_refl.
    - destruct (String.eqb_spec (media_id o) id) as [Heq|_].
      + exfalso. eapply Hbefore; [left|done].
      + apply IH. intros other Hin. apply Hbefore. by right.
    - apply IH. intros other Hin. apply Hbefore. by right. }
  assert (∀ l : list (option Media),
            (∀ media, Some media ∈ l → media_id media ≠ id) → find matches l = None)
    as Hnone.
  { induction l as [|[o|] l IH]; intros Hl; simpl; [done| |].
    - destruct (String.eqb_spec (media_id o) id) as [Heq|_].
      + exfalso. eapply Hl; [left|done].
      + apply IH. intros media Hin. apply Hl. by right.
    - apply IH. intros media Hin. apply Hl. by right. }
  split.
  - intros ->. done.
  - intros m ->. fold (message_medias m). split_and!.
    + intros media Hmedia Hid.
      assert (message_medias m = [] ++ Some media :: tail (message_medias m)) as ->
        by (unfold message_medias; by rewrite Hmedia).
      rewrite Hfirst; [done | done |]. by intros other Hin%elem_of_nil.
    + intros before media after -> Hid Hbefore. by rewrite Hfirst.
    + intros Hno. by rewrite Hnone.
    + intros reference Hfound.
      destruct (find matches (message_medias m)) as [[media|]|] eqn:Hfind; try done.
      apply find_some in Hfind as [Hin Hmatch]. simpl in Hmatch.
      exists media. split; [by apply list_elem_of_In|].
      split; [by apply String.eqb_eq | done].
Qed.

Lemma getFileReference_messages folder messageId id w w' :
  foldersMessages w = foldersMessages w' →
  getFileReference folder messageId id w = getFileReference folder messageId id w'.
Proof. intros Heq. unfold getFileReference. by rewrite Heq. Qed.

(** X12. When a stream read is rejected as expired and the refresh brings
    a message whose media of that id has a reference, the read is made
    again with that reference, which is also written to the entry; the
    bytes of the second read are the result. *)
Theorem stream_retry_uses_refreshed_reference
    fileKey offsetSize partSize w f folder messageId messages reference bytes :
  streaming_ok w →
  getStreamingFile fileKey w = Some f →
  sf_folder f = Some folder →
  sf_messageId f = Some messageId →
  messageId ≠ 0 →
  getFileReference folder messageId (df_id (sf_file f))
    {| streamingFiles := ∅; foldersMessages := messages; slog := [] |} = Some reference →
  let result :=
    downloadStreamFilePart
      [expired_then messages;
       {| ss_during := []; ss_reply := Resolved bytes; ss_refresh := [] |}]
      fileKey offsetSize partSize None w in
  result.2 = Returned bytes ∧
  slog result.1 =
    slog w ++ [SEvDownloadFilePart f offsetSize partSize;
               SEvRefreshMessage folder messageId;
               SEvDownloadFilePart (merge_reference (Some reference) f)
                 offsetSize partSize] ∧
  getStreamingFile fileKey result.1 = Some (merge_reference (Some reference) f) ∧
  df_file_reference (sf_file (merge_reference (Some reference) f)) = Some reference.
Proof.
  intros Hok Hf Hfolder Hid Hnz Href result. unfold result.
  rewrite (downloadStreamFilePart_expired _ _ _ _ _ _ _ f folder messageId)
    by done.
  set (w1 := store_after_refresh _ _ _ _ _ _ _ _).
  assert (getStreamingFile fileKey w1 = Some f) as Hf1 by done.
  assert (getFileReference folder messageId (df_id (sf_file f)) w1 = Some reference)
    as Href1.
  { rewrite <- Href. by apply getFileReference_messages. }
  rewrite (getFileReference_available _ _ _ _ _ Href1), Href1.
  assert (fileKeyOf (sf_file f) = fileKey) as Hkey by (by apply Hok).
  cbn [downloadStreamFilePart]. rewrite Hf1.
  cbn [ss_during ss_reply apply_stream_ops foldl fst snd].
  split; [done|]. split_and!.
  - cbn [semit slog setStreamingFile fst]. unfold w1.
    rewrite slog_store_after_refresh, <- app_assoc. done.
  - unfold getStreamingFile. simpl.
    change (fileKeyOf (with_file_reference (Some reference) (sf_file f)))
      with (fileKeyOf (sf_file f)).
    rewrite Hkey. apply lookup_insert_eq.
  - done.
Qed.

End MoreStreamProperties.

(** ** The upload pipeline, further *)

Section MoreUploadProperties.
Context {ext : Externals}.

(** X13. [onUploadPart] does nothing without a sending message for the
    folder; otherwise it changes the progress of the input files of that
    key and nothing else: the sending messages of other folders, the
    staged files and the answer of [checkIsUploading] for every folder
    and key are as before, so reporting progress never cancels an
    upload. *)
Theorem onUploadPart_only_touches_progress folder fileKey progress w :
  let w1 := onUploadPart folder fileKey progress w in
  (getSendingMessage (folder_id folder) w = None → w1 = w) ∧
  (∀ other, other ≠ folder_id folder →
     getSendingMessage other w1 = getSendingMessage other w) ∧
  fileMetas w1 = fileMetas w ∧
  ulog w1 = ulog w ∧
  (∀ folder' fileKey', checkIsUploading folder' fileKey' w1
                       = checkIsUploading folder' fileKey' w) ∧
  (∀ sendingMessage inputFiles,
     getSendingMessage (folder_id folder) w = Some sendingMessage →
     im_inputFiles sendingMessage = Some inputFiles →
     ∃ updated inputFiles',
       getSendingMessage (folder_id folder) w1 = Some updated ∧
       im_text updated = im_text sendingMessage ∧
       im_inputFiles updated = Some inputFiles' ∧
       Forall2 (λ f f',
                  if_fileKey f' = if_fileKey f ∧
                  if_thumbFileKey f' = if_thumbFileKey f ∧
                  if_w f' = if_w f ∧ if_h f' = if_h f ∧
                  if_duration f' = if_duration f ∧
                  if_progress f' =
                    if key_is fileKey (if_fileKey f) then Some progress
                    else if_progress f)
               inputFiles inputFiles').
Proof.
  intros w1. split_and!.
  - intros Hnone. unfold w1, onUploadPart. by rewrite Hnone.
  - intros other Hne. unfold w1, onUploadPart.
    destruct (getSendingMessage (folder_id folder) w); [|done].
    unfold getSendingMessage. simpl. by rewrite lookup_insert_ne.
  - unfold w1, onUploadPart. by destruct (getSendingMessage (folder_id folder) w).
  - apply ulog_onUploadPart.
  - intros folder' fileKey'. apply checkIsUploading_onUploadPart.
  - intros sendingMessage inputFiles Hm Hfiles. unfold w1, onUploadPart. rewrite Hm.
    eexists _, _. split; [apply lookup_insert_eq|]. split; [done|].
    split; [simpl; by rewrite Hfiles|].
    clear. induction inputFiles as [|f inputFiles IH]; simpl; constructor; [|done].
    by destruct (key_is fileKey (if_fileKey f)).
Qed.

(** X14. [uploadFile] has no result without the parameters of the main
    file, whatever became of the thumbnail; with them the result names
    the main file, carries the thumbnail exactly when its upload returned
    parameters, and classifies the file as an image (width and height,
    no duration), as a video (width, height and duration) or as neither,
    never as both. *)
Theorem uploadFile_result_shape inputFile thumbFileParams :
  uploaded_file inputFile None thumbFileParams = None ∧
  ∀ mainFileParams,
    ∃ result,
      uploaded_file inputFile (Some mainFileParams) thumbFileParams = Some result ∧
      uf_file result = file_ref mainFileParams ∧
      uf_thumb result = file_ref <$> thumbFileParams ∧
      (uf_imageParams result = None ∨ uf_videoParams result = None) ∧
      (∀ w h, uf_imageParams result = Some (w, h) ↔
              if_w inputFile = Some w ∧ if_h inputFile = Some h ∧ w ≠ 0 ∧ h ≠ 0 ∧
              truthy_num (if_duration inputFile) = false) ∧
      (∀ w h duration, uf_videoParams result = Some (w, h, duration) ↔
              if_w inputFile = Some w ∧ if_h inputFile = Some h ∧
              if_duration inputFile = Some duration ∧ w ≠ 0 ∧ h ≠ 0 ∧ duration ≠ 0).
Proof.
  split; [done|]. intros mainFileParams. eexists. split; [reflexivity|].
  simpl. split; [done|]. split; [done|].
  destruct (if_w inputFile) as [w0|], (if_h inputFile) as [h0|],
           (if_duration inputFile) as [d0|]; simpl;
    try destruct (Z.eqb_spec w0 0); try destruct (Z.eqb_spec h0 0);
    try destruct (Z.eqb_spec d0 0); simpl;
    (split; [auto|]); split; intros; split; intros; naive_solver.
Qed.

Lemma getFileMeta_deleteFile key key' w :
  getFileMeta key' (deleteFile key w) =
  if decide (key = key') then None else getFileMeta key' w.
Proof. unfold getFileMeta, deleteFile. simpl. apply lookup_delete. Qed.

Lemma resetUploadingFiles_cons inputFile inputFiles w :
  resetUploadingFiles (inputFile :: inputFiles) w =
  resetUploadingFiles inputFiles (resetUploadingFiles [inputFile] w).
Proof. reflexivity. Qed.

Lemma resetUploadingFiles_one inputFile w :
  sendingMessages (resetUploadingFiles [inputFile] w) = sendingMessages w ∧
  deleted_files (ulog (resetUploadingFiles [inputFile] w))
  = deleted_files (ulog w) ++ staged_keys [inputFile] ∧
  ∀ key, getFileMeta key (resetUploadingFiles [inputFile] w) =
         if decide (key ∈ staged_keys [inputFile]) then None else getFileMeta key w.
Proof.
  unfold resetUploadingFiles, staged_keys. simpl.
  destruct (if_fileKey inputFile) as [k|], (if_thumbFileKey inputFile) as [t|]; simpl;
    try destruct (String.eqb_spec k ""); try destruct (String.eqb_spec t ""); simpl;
    (split; [done|]);
    (split; [unfold deleted_files; rewrite ?omap_app; simpl;
             rewrite ?app_nil_r, <- ?app_assoc; done|]);
    intros key; rewrite ?getFileMeta_deleteFile;
    repeat case_decide; try done; set_solver.
Qed.

(** X15. [resetUploadingFiles] deletes the staged file and thumbnail of
    every input file, in order, and nothing else; afterwards none of them
    has metadata, and an upload of any of them returns at once without a
    call to the transport. *)
Theorem resetUploadingFiles_unstages inputFiles w :
  let w1 := resetUploadingFiles inputFiles w in
  sendingMessages w1 = sendingMessages w ∧
  deleted_files (ulog w1) = deleted_files (ulog w) ++ staged_keys inputFiles ∧
  (∀ key, key ∈ staged_keys inputFiles → getFileMeta key w1 = None) ∧
  (∀ key, key ∉ staged_keys inputFiles → getFileMeta key w1 = getFileMeta key w) ∧
  (∀ folder inputFile key,
     key ∈ staged_keys inputFiles →
     unit_start folder inputFile (Some key) w1 = (w1, UReturned None)).
Proof.
  intros w1.
  assert (sendingMessages w1 = sendingMessages w ∧
          deleted_files (ulog w1) = deleted_files (ulog w) ++ staged_keys inputFiles ∧
          ∀ key, getFileMeta key w1 =
                 if decide (key ∈ staged_keys inputFiles) then None else getFileMeta key w)
    as (Hsending & Hdeleted & Hmeta).
  { unfold w1. clear w1. revert w.
    induction inputFiles as [|inputFile inputFiles IH]; intros w.
    - split; [done|]. split; [by rewrite app_nil_r|]. intros key.
      case_decide as Hin; [by apply elem_of_nil in Hin | done].
    - rewrite resetUploadingFiles_cons.
      destruct (resetUploadingFiles_one inputFile w) as (Hs1 & Hd1 & Hm1).
      destruct (IH (resetUploadingFiles [inputFile] w)) as (Hs & Hd & Hm).
      assert (staged_keys (inputFile :: inputFiles)
              = staged_keys [inputFile] ++ staged_keys inputFiles) as Hkeys.
      { unfold staged_keys. rewrite !bind_cons. simpl. by rewrite app_nil_r. }
      split; [by rewrite Hs, Hs1|].
      split; [by rewrite Hd, Hd1, Hkeys, app_assoc|].
      intros key. rewrite Hm, Hm1, Hkeys.
      repeat case_decide; try done; set_solver. }
  split_and!; try done.
  - intros key Hin. rewrite Hmeta. by case_decide.
  - intros key Hnotin. rewrite Hmeta. by case_decide.
  - intros folder inputFile key Hin. unfold unit_start.
    destruct (truthy_str (Some key)); [|done].
    rewrite Hmeta. by case_decide.
Qed.

Lemma observed_progress_events ctx fileParams part evs :
  uploaded_parts (progress_events ctx fileParams part ++ evs) = uploaded_parts evs ∧
  deleted_files (progress_events ctx fileParams part ++ evs) = deleted_files evs.
Proof. unfold progress_events. by destruct (isMainFile ctx). Qed.

(** From the head of the loop: the body returns the parameters only with
    every part from [part] on uploaded. *)
Lemma upload_outcome_loop ctx oracle fileParams part w :
  (∀ w0 st,
     ∃ evs, ulog (unit_feed ctx oracle (w0, st)).1 = ulog w0 ++ evs ∧
            upload_outcome ctx st (unit_feed ctx oracle (w0, st)).2 evs) →
  let result := unit_feed ctx oracle (unit_loop ctx fileParams part w) in
  ∃ evs,
    ulog result.1 = ulog w ++ evs ∧
    (∀ returned, result.2 = UReturned (Some returned) →
       returned = fileParams ∧
       uploaded_parts evs = seqZ part (fp_partsCount fileParams - part) ∧
       deleted_files evs = [uc_fileKey ctx]) ∧
    ((∀ returned, result.2 ≠ UReturned (Some returned)) → deleted_files evs = []).
Proof.
  intros IH result. unfold result.
  destruct (unit_loop_cases ctx fileParams part w)
    as [(Hlt & _ & ->) | [(_ & _ & ->) | (Hge & ->)]].
  - destruct (IH (uemit (UEvGetFilePart (uc_fileKey ctx)
                           (part * fp_partSize fileParams)
                           (part_end fileParams part)) w)
                (UTransforming fileParams part)) as (evs & Hlog & Hout).
    simpl in Hout. destruct (Hout Hlt) as [Hdone Hnot].
    eexists. split; [rewrite Hlog; simpl; rewrite <- app_assoc; reflexivity|].
    split; [|exact Hnot]. intros returned Hret. by apply Hdone.
  - destruct (IH w (UReturned None)) as (evs & Hlog & Hfinal & ->).
    exists []. split; [done|]. rewrite Hfinal. split; [done|done].
  - destruct (IH (deleteFile (uc_fileKey ctx) w) (UReturned (Some fileParams)))
      as (evs & Hlog & Hfinal & ->).
    eexists. split; [rewrite Hlog; simpl; rewrite app_nil_r; reflexivity|].
    rewrite Hfinal. split.
    + intros returned [= <-]. split; [done|]. split; [|done].
      by rewrite seqZ_nil by lia.
    + intros Hnot. by specialize (Hnot fileParams).
Qed.

Lemma unit_feed_outcome ctx oracle :
  ∀ w st,
    ∃ evs, ulog (unit_feed ctx oracle (w, st)).1 = ulog w ++ evs ∧
           upload_outcome ctx st (unit_feed ctx oracle (w, st)).2 evs.
Proof.
  induction oracle as [|step oracle IH]; intros w st.
  { exists []. rewrite app_nil_r. split; [done|]. simpl.
    destruct st as [|fileParams part|fileParams part|result]; simpl; done. }
  cbn [unit_feed fst snd].
  set (w2 := apply_sending_ops (us_during step) w).
  assert (ulog w2 = ulog w) as Hw2 by apply ulog_apply_sending_ops.
  assert (∀ st0,
            unit_resume ctx st0 (us_reply step) w2 = (w2, st0) →
            ∃ evs, ulog (unit_feed ctx oracle (unit_resume ctx st0 (us_reply step) w2)).1
                   = ulog w ++ evs ∧
                   upload_outcome ctx st0
                     (unit_feed ctx oracle (unit_resume ctx st0 (us_reply step) w2)).2 evs)
    as Hstay.
  { intros st0 ->. destruct (IH w2 st0) as (evs & Hlog & Hout).
    exists evs. by rewrite Hlog, Hw2. }
  destruct st as [|fileParams part|fileParams part|result].
  - destruct (us_reply step) as [fileParams| |]; try (by apply Hstay).
    cbn [unit_resume].
    destruct (upload_outcome_loop ctx oracle fileParams 0 w2 IH)
      as (evs & Hlog & Hdone & Hnot).
    exists evs. rewrite Hlog, Hw2. split; [done|]. split; [|done].
    intros returned Hret. destruct (Hdone returned Hret) as (-> & Hup & Hdel).
    by rewrite Z.sub_0_r in Hup.
  - destruct (us_reply step) as [|[bytes|]|]; try (by apply Hstay).
    + cbn [unit_resume].
      destruct (IH (uemit (UEvUploadFilePart (uc_fileKey ctx) part bytes) w2)
                  (UUploading fileParams part)) as (evs & Hlog & Hout).
      eexists. split; [rewrite Hlog; simpl; rewrite Hw2, <- app_assoc; reflexivity|].
      intros Hlt. destruct (Hout Hlt) as [Hdone Hnot]. split; [|exact Hnot].
      intros returned Hret. destruct (Hdone returned Hret) as (-> & Hup & Hdel).
      split; [done|]. split; [|done].
      rewrite (seqZ_cons part) by lia. cbn [app uploaded_parts omap list_omap].
      fold (uploaded_parts evs). rewrite Hup. f_equal. f_equal; lia.
    + cbn [unit_resume]. destruct (IH w2 (UReturned None)) as (evs & Hlog & Hfinal & ->).
      exists []. rewrite Hlog, Hw2. split; [done|]. intros Hlt. rewrite Hfinal.
      split; [done|done].
  - destruct (us_reply step); try (by apply Hstay).
    cbn [unit_resume].
    set (w3 := if isMainFile ctx then _ else w2).
    assert (ulog w3 = ulog w ++ progress_events ctx fileParams part) as Hw3.
    { unfold w3, progress_events. destruct (isMainFile ctx).
      - rewrite ulog_onUploadPart. simpl. by rewrite Hw2.
      - by rewrite Hw2, app_nil_r. }
    destruct (upload_outcome_loop ctx oracle fileParams (part + 1) w3 IH)
      as (evs & Hlog & Hdone & Hnot).
    eexists. split; [rewrite Hlog, Hw3, <- app_assoc; reflexivity|].
    intros Hlt.
    destruct (observed_progress_events ctx fileParams part evs) as [-> ->].
    split; [|done]. intros returned Hret. by apply Hdone.
  - assert (unit_resume ctx (UReturned result) (us_reply step) w2
            = (w2, UReturned result)) as -> by (by destruct (us_reply step)).
    destruct (IH w2 (UReturned result)) as (evs & Hlog & Hfinal & ->).
    exists []. by rewrite Hlog, Hw2.
Qed.

(** X16. Against any environment, the upload of a file returns the
    parameters of the file only after it has uploaded every one of its
    parts, in order, and then it has deleted the staged file; in every
    other case (a check that fails, missing bytes, a promise that does not
    settle) the staged file is not deleted. *)
Theorem upload_returns_parameters_only_when_complete ctx fileParams oracle w :
  let result := unit_feed ctx oracle (unit_resume ctx UPreparing (UPrepared fileParams) w) in
  ∃ evs,
    ulog result.1 = ulog w ++ evs ∧
    (∀ returned, result.2 = UReturned (Some returned) →
       returned = fileParams ∧
       uploaded_parts evs = seqZ 0 (fp_partsCount fileParams) ∧
       deleted_files evs = [uc_fileKey ctx]) ∧
    ((∀ returned, result.2 ≠ UReturned (Some returned)) → deleted_files evs = []).
Proof.
  intros result. unfold result. cbn [unit_resume].
  destruct (upload_outcome_loop ctx oracle fileParams 0 w (unit_feed_outcome ctx oracle))
    as (evs & Hlog & Hdone & Hnot).
  exists evs. split; [done|]. split; [|done].
  intros returned Hret. destruct (Hdone returned Hret) as (-> & Hup & Hdel).
  by rewrite Z.sub_0_r in Hup.
Qed.

Lemma created_messages_unit_start folder inputFile fileKey w :
  created_messages (ulog (unit_start folder inputFile fileKey w).1)
  = created_messages (ulog w).
Proof.
  unfold unit_start. destruct fileKey as [key|]; [|done].
  destruct (truthy_str (Some key)); [|done].
  destruct (getFileMeta key w); [|done].
  destruct (checkIsUploading folder key w); [|done].
  cbn [fst uemit ulog]. unfold created_messages. rewrite omap_app. simpl.
  by rewrite app_nil_r.
Qed.

Lemma marks_within_same_log ctx w w' budget after :
  created_messages (ulog w) = created_messages (ulog w') →
  marks_within ctx w' budget after → marks_within ctx w budget after.
Proof. intros Hlog (marks & Hmarks & Hlen & Hall). exists marks. by rewrite Hlog. Qed.

Lemma marks_within_weaken ctx w budget budget' after :
  (budget ≤ budget')%nat →
  marks_within ctx w budget after → marks_within ctx w budget' after.
Proof. intros Hle (marks & Hmarks & Hlen & Hall). exists marks. split_and!; [done|lia|done]. Qed.

Lemma marks_within_stay ctx w st :
  marks_within ctx w (markers_to_come st) (w, st).
Proof. exists []. rewrite app_nil_r. split_and!; [done|simpl; lia|constructor]. Qed.

Lemma settle_marks ctx remaining inputFile main thumb w :
  (∀ w0, marks_within ctx w0 remaining (pass_loop ctx remaining w0)) →
  marks_within ctx w (S remaining)
    (settle (pass_loop ctx remaining) ctx remaining inputFile main thumb w).
Proof.
  intros Hloop. unfold settle.
  destruct main as [| | |mainFileParams];
    try apply (marks_within_stay ctx w (PUploading remaining inputFile _ thumb)).
  destruct thumb as [| | |thumbFileParams];
    try apply (marks_within_stay ctx w (PUploading remaining inputFile _ _)).
  destruct (uploaded_file inputFile mainFileParams thumbFileParams) as [uploadedFile|].
  - eexists [_]. cbn [fst snd uemit ulog markers_to_come].
    unfold created_messages at 1. rewrite omap_app. split_and!; [done|simpl; lia|].
    by repeat constructor.
  - apply (marks_within_weaken ctx w remaining); [lia | apply Hloop].
Qed.

Lemma pass_loop_marks ctx remaining :
  ∀ w, marks_within ctx w remaining (pass_loop ctx remaining w).
Proof.
  induction remaining as [|remaining IH]; intros w.
  { apply (marks_within_stay ctx w (PReturned _)). }
  cbn [pass_loop].
  destruct (getSendingMessage (folder_id (pc_folder ctx)) w).
  2:{ apply (marks_within_weaken ctx w 0); [lia|].
      apply (marks_within_stay ctx w (PReturned None)). }
  assert (marks_within ctx w (S remaining) (pass_loop ctx remaining w)) as Hskip.
  { apply (marks_within_weaken ctx w remaining); [lia | apply IH]. }
  destruct (pass_inputFiles ctx !! pass_index ctx remaining) as [inputFile|]; [|done].
  destruct (truthy_str (if_fileKey inputFile)); [|done].
  pose proof (created_messages_unit_start (pc_folder ctx) inputFile
                (if_fileKey inputFile) w) as Hmain.
  destruct (unit_start (pc_folder ctx) inputFile (if_fileKey inputFile) w) as [w1 main].
  pose proof (created_messages_unit_start (pc_folder ctx) inputFile
                (if_thumbFileKey inputFile) w1) as Hthumb.
  destruct (unit_start (pc_folder ctx) inputFile (if_thumbFileKey inputFile) w1)
    as [w2 thumb].
  simpl in Hmain, Hthumb.
  apply (marks_within_same_log ctx w w2); [congruence|].
  by apply settle_marks.
Qed.

Lemma pass_step_marks ctx s a :
  marks_within ctx s.1 (markers_to_come s.2) (pass_step ctx s a).
Proof.
  destruct s as [w st]. cbn [fst snd].
  destruct a as [reply|reply|success|op]; unfold pass_step; cbn [fst snd].
  - destruct st as [remaining inputFile main thumb| |];
      try apply marks_within_stay.
    pose proof (created_messages_unit_resume (main_ctx ctx inputFile) main reply w) as Hlog.
    destruct (unit_resume (main_ctx ctx inputFile) main reply w) as [w1 main1].
    apply (marks_within_same_log ctx w w1); [done|].
    apply settle_marks, pass_loop_marks.
  - destruct st as [remaining inputFile main thumb| |];
      try apply marks_within_stay.
    pose proof (created_messages_unit_resume (thumb_ctx ctx inputFile) thumb reply w)
      as Hlog.
    destruct (unit_resume (thumb_ctx ctx inputFile) thumb reply w) as [w1 thumb1].
    apply (marks_within_same_log ctx w w1); [done|].
    apply settle_marks, pass_loop_marks.
  - destruct st as [|remaining inputFile|];
      try apply marks_within_stay.
    cbn [markers_to_come].
    destruct (success && negb (pass_final ctx remaining)); [|apply pass_loop_marks].
    destruct (getSendingMessage (folder_id (pc_folder ctx)) w) as [sendingMessage|].
    + apply (marks_within_same_log ctx w
               (setSendingMessage (folder_id (pc_folder ctx))
                  (without_file inputFile sendingMessage) w)); [done|].
      apply pass_loop_marks.
    + apply (marks_within_weaken ctx w 0); [lia|].
      apply (marks_within_stay ctx w (PReturned None)).
  - destruct (marks_within_stay ctx (apply_sending_op w op) st) as (marks & Hm & Hlen & Hall).
    exists marks. split_and!; [|done|done]. rewrite Hm. by destruct op.
Qed.

Lemma pass_steps_marks ctx actions :
  ∀ w budget s,
    marks_within ctx w budget s →
    marks_within ctx w budget (foldl (pass_step ctx) s actions).
Proof.
  induction actions as [|a actions IH]; intros w budget s Hs; [done|].
  cbn [foldl]. apply IH.
  destruct Hs as (m1 & Hm1 & Hl1 & Ha1).
  destruct (pass_step_marks ctx s a) as (m2 & Hm2 & Hl2 & Ha2).
  exists (m1 ++ m2). split_and!.
  - by rewrite Hm2, Hm1, <- app_assoc.
  - rewrite length_app. lia.
  - by apply Forall_app.
Qed.

(** X17. Whatever the uploads and [createMessage] answer and whatever
    happens to the sending messages meanwhile, a pass of [uploadFiles]
    calls [createMessage] at most once per input file of its message, and
    every such call carries the mark of the parent message as its text. *)
Theorem uploadFiles_marks_each_file_at_most_once ctx actions w :
  ∃ marks,
    created_messages (ulog (pass_run ctx actions w).1)
    = created_messages (ulog w) ++ marks ∧
    (length marks ≤ length (pass_inputFiles ctx))%nat ∧
    Forall (λ m, m.1.1 = generateFileMessageMark (pc_parentId ctx)) marks.
Proof.
  destruct (pass_steps_marks ctx actions w (length (pass_inputFiles ctx))
              (uploadFiles ctx w) (pass_loop_marks ctx _ w))
    as (marks & Hmarks & Hlen & Hall).
  exists marks. split_and!; [done|lia|done].
Qed.

End MoreUploadProperties.

(** ** The checklist item *)

Lemma isEntering_spec p :
  isEntering p = true ↔
  ∃ d, cp_draggingIndex p = Some d ∧ d ≠ cp_index p ∧
       cp_enteringIndex p = Some (cp_index p).
Proof.
  unfold isEntering.
  destruct (cp_draggingIndex p) as [d|], (cp_enteringIndex p) as [e|];
    try (split; [done | by intros (d' & ? & ? & ?)]).
  split.
  - intros H. exists d.
    destruct (Z.eqb_spec d e), (Z.eqb_spec e (cp_index p)),
      (Z.eqb_spec e (cp_length p - 1)), (Z.eqb_spec (cp_index p) (cp_length p - 1));
      simpl in H; try done; split_and!; try done; try congruence; f_equal; lia.
  - intros (d' & [= <-] & Hne & [= ->]).
    destruct (Z.eqb_spec d (cp_index p)); [done|]. simpl.
    by rewrite Z.eqb_refl.
Qed.

Lemma fake_items_split p :
  (isFirstFakeChecklistItem p || isLastFakeChecklistItem p = isEntering p) ∧
  (isFirstFakeChecklistItem p && isLastFakeChecklistItem p = false).
Proof.
  unfold isFirstFakeChecklistItem, isLastFakeChecklistItem.
  destruct (isEntering p) eqn:Hentering; [|done].
  apply isEntering_spec in Hentering as (d & -> & Hne & ->). simpl.
  destruct (Z.ltb_spec (cp_index p) d), (Z.ltb_spec d (cp_index p)),
    (Z.eqb_spec (cp_index p) (cp_length p - 1)); simpl; try done; lia.
Qed.

Lemma filter_none {A} (f : A → bool) (l : list A) :
  (∀ x, x ∈ l → f x = false) → List.filter f l = [].
Proof.
  induction l as [|x l IH]; intros Hall; [done|]. simpl.
  rewrite (Hall x) by left. apply IH. intros y Hy. apply Hall. by right.
Qed.

(** X18. A checklist item shows a placeholder for the dragged item exactly
    when it is the item the pointer has entered and another item is being
    dragged; the placeholder is then either above or below the item, never
    both, and the dragged item itself never shows one. *)
Theorem placeholder_only_at_entered_item p :
  (isEntering p = true ↔
   ∃ d, cp_draggingIndex p = Some d ∧ d ≠ cp_index p ∧
        cp_enteringIndex p = Some (cp_index p)) ∧
  (isFirstFakeChecklistItem p || isLastFakeChecklistItem p = isEntering p) ∧
  (isFirstFakeChecklistItem p && isLastFakeChecklistItem p = false) ∧
  (isDragging p = true →
   isFirstFakeChecklistItem p = false ∧ isLastFakeChecklistItem p = false).
Proof.
  split; [apply isEntering_spec|].
  destruct (fake_items_split p) as [Hor Hand]. split; [done|]. split; [done|].
  intros Hdragging.
  assert (isEntering p = false) as Hnot.
  { destruct (isEntering p) eqn:Hentering; [|done].
    apply isEntering_spec in Hentering as (d & Hd & Hne & _).
    unfold isDragging in Hdragging. rewrite Hd in Hdragging.
    by apply Z.eqb_eq in Hdragging. }
  rewrite Hnot in Hor. by apply orb_false_elim in Hor.
Qed.

(** X19. While an item of a list is dragged over another one, one item of
    the list shows a placeholder, the entered one: above itself when the
    dragged item comes from below or the entered item is the last of the
    list, below itself otherwise. *)
Theorem one_placeholder_while_dragging length d e :
  0 ≤ e < length →
  d ≠ e →
  let item := item_at length (Some d) (Some e) in
  List.filter (λ index, isFirstFakeChecklistItem (item index)
                        || isLastFakeChecklistItem (item index))
              (seqZ 0 length) = [e] ∧
  isFirstFakeChecklistItem (item e) = (e <? d) || isLastItem (item e) ∧
  isLastFakeChecklistItem (item e) = negb (isFirstFakeChecklistItem (item e)).
Proof.
  intros He Hne item.
  assert (∀ index, isFirstFakeChecklistItem (item index)
                   || isLastFakeChecklistItem (item index) = (e =? index)) as Hshown.
  { intros index. destruct (fake_items_split (item index)) as [-> _].
    destruct (Z.eqb_spec e index) as [<- | Hother].
    - apply isEntering_spec. by exists d.
    - destruct (isEntering (item index)) eqn:Hentering; [|done].
      apply isEntering_spec in Hentering as (d' & _ & _ & Hentered).
      simpl in Hentered. congruence. }
  split.
  - replace length with (e + (1 + (length - e - 1))) at 1 by lia.
    rewrite seqZ_app by lia. rewrite (seqZ_app (0 + e) 1) by lia.
    rewrite !List.filter_app.
    rewrite (filter_none _ (seqZ 0 e)), (filter_none _ (seqZ (0 + e + 1) _)).
    + change (seqZ (0 + e) 1) with [0 + e]. simpl. rewrite Hshown.
      replace (e =? 0 + e) with true by (symmetry; apply Z.eqb_eq; lia).
      f_equal; lia.
    + intros index Hin. apply elem_of_seqZ in Hin. rewrite Hshown.
      apply Z.eqb_neq. lia.
    + intros index Hin. apply elem_of_seqZ in Hin. rewrite Hshown.
      apply Z.eqb_neq. lia.
  - unfold isFirstFakeChecklistItem, isLastFakeChecklistItem, isLastItem.
    assert (isEntering (item e) = true) as -> by (apply isEntering_spec; by exists d).
    simpl.
    destruct (Z.ltb_spec e d), (Z.ltb_spec d e), (Z.eqb_spec e (length - 1));
      simpl; try done; lia.
Qed.

(** * Further instances *)

(** The movie is downloading; pausing clears its flag. *)
Lemma pauseDownloadingFile_only_clears_flag_witness :
  getDownloadingFile (ext:=exampleExternals) movie
    (pauseDownloadingFile (ext:=exampleExternals) movie resumedWorld)
  = Some (with_downloading (Some false) resumedMovie) ∧
  lanes (pauseDownloadingFile (ext:=exampleExternals) movie resumedWorld)
  = lanes resumedWorld.
Proof.
  pose proof (pauseDownloadingFile_only_clears_flag (ext:=exampleExternals)
                movie resumedWorld registry_ok_resumedWorld) as H.
  destruct H as (Hentry & _ & _ & Hlanes & _).
  split; [|exact Hlanes].
  change (getDownloadingFile (ext:=exampleExternals) movie resumedWorld)
    with (Some resumedMovie) in Hentry.
  exact (proj1 Hentry).
Defined.


(** The movie of 1,500,000 bytes has three parts of 512 KiB. *)
Lemma first_download_requests_lie_in_the_file_witness :
  (3 - 1) * 524288 < 1500000 ≤ 3 * 524288 ∧
  ∃ evs,
    log (run_task (ext:=exampleExternals) movieTask (deliver <$> [[x01]; [x02]; [x03]])
           (downloadFile (ext:=exampleExternals) 7 movie inbox emptyWorld)).1
    = log emptyWorld ++ evs ∧
    request_offsets evs = (λ p, p * 524288) <$> seqZ 0 3.
Proof.
  pose proof (first_download_requests_lie_in_the_file (ext:=exampleExternals)
                7 movie inbox emptyWorld []) as H.
  destruct H as (Hcover & _ & Hall); try (vm_compute; reflexivity); try (simpl; lia).
  split; [exact Hcover|].
  apply (Hall [[x01]; [x02]; [x03]]). vm_compute; reflexivity.
Defined.

(** The two remaining parts of the movie arrive. *)
Lemma undisturbed_download_completes_witness :
  let result :=
    run_task (ext:=exampleExternals) movieTask (deliver <$> [[x02]; [x03]]) resumedWorld in
  result.2 = Finished ∧
  ∃ final,
    getDownloadingFile (ext:=exampleExternals) movie result.1 = Some final ∧
    df_lastPart final = Some (3 - 1) ∧
    df_progress final = Some (Integer 100).
Proof.
  pose proof (undisturbed_download_completes (ext:=exampleExternals)
                movieTask [[x02]; [x03]] resumedWorld resumedMovie
                registry_ok_resumedWorld) as H.
  destruct H as (Hfin & final & Hfinal & Hlast & Hprogress & _).
  - vm_compute; reflexivity.
  - done.
  - simpl. lia.
  - done.
  - reflexivity.
  - split; [exact Hfin|]. exists final. split_and!; [exact Hfinal|exact Hlast|exact Hprogress].
Defined.

(** Part 1 of the movie fails with a timeout. *)
Lemma other_failure_leaves_download_marked_witness :
  on_reply (ext:=exampleExternals) movieRun (Rejected "TIMEOUT") requestedWorld
  = (requestedWorld, Finished) ∧
  downloadFile (ext:=exampleExternals) 7 movie inbox requestedWorld = requestedWorld.
Proof.
  pose proof (other_failure_leaves_download_marked (ext:=exampleExternals)
                movieRun "TIMEOUT" requestedWorld resumedMovie 7 inbox) as H.
  destruct H as (Hrejected & _ & Hnoop & _).
  - done.
  - exact registry_ok_resumedWorld.
  - vm_compute; reflexivity.
  - reflexivity.
  - reflexivity.
  - split; [exact Hrejected | exact Hnoop].
Defined.

Lemma streaming_ok_clipWorld : streaming_ok (ext:=exampleExternals) clipWorld.
Proof.
  intros key f Hlookup. simpl in Hlookup.
  apply lookup_singleton_Some in Hlookup as [<- <-]. reflexivity.
Qed.

(** The clip is registered again for message 8 with a new reference. *)
Lemma streamFile_registers_for_reading_witness :
  ∃ f,
    getStreamingFile "movie-1500000"
      (streamFile (ext:=exampleExternals) 8 (with_file_reference (Some [x02]) movie)
         (Some inbox) clipWorld) = Some f ∧
    sf_streaming f = Some true ∧
    sf_messageId f = Some 8 ∧
    df_file_reference (sf_file f) = Some [x02].
Proof.
  pose proof (streamFile_registers_for_reading (ext:=exampleExternals)
                8 (with_file_reference (Some [x02]) movie) (Some inbox) clipWorld
                streaming_ok_clipWorld) as H.
  destruct H as (_ & _ & f & Hf & Hstreaming & _ & Hmessage & Hreference & _).
  exists f. split_and!; [exact Hf|exact Hstreaming|exact Hmessage|exact Hreference].
Defined.

(** The read of the clip is rejected as expired; the refreshed message 7
    has the movie with a new reference, and the read is made again with
    it. *)
Lemma stream_retry_uses_refreshed_reference_witness :
  let result :=
    downloadStreamFilePart (ext:=exampleExternals)
      [expired_then refreshedMessages; delivered] "movie-1500000" 0 1024 None clipWorld in
  result.2 = Returned (Some [x2a]) ∧
  getStreamingFile "movie-1500000" result.1 = Some (merge_reference (Some [x02]) clip).
Proof.
  pose proof (stream_retry_uses_refreshed_reference (ext:=exampleExternals)
                "movie-1500000" 0 1024 clipWorld clip inbox 7 refreshedMessages
                [x02] (Some [x2a]) streaming_ok_clipWorld) as H.
  destruct H as (Hresult & _ & Hentry & _);
    try (vm_compute; reflexivity); try done.
Defined.

(** In a list of four items the first is dragged over the third: the
    third shows the placeholder, below itself. *)
Lemma one_placeholder_while_dragging_witness :
  List.filter (λ index, isFirstFakeChecklistItem (item_at 4 (Some 0) (Some 2) index)
                        || isLastFakeChecklistItem (item_at 4 (Some 0) (Some 2) index))
              (seqZ 0 4) = [2] ∧
  isLastFakeChecklistItem (item_at 4 (Some 0) (Some 2) 2) = true.
Proof.
  pose proof (one_placeholder_while_dragging 4 0 2) as H.
  destruct H as (Hone & _ & Hbelow); [lia | lia |].
  split; [exact Hone | exact Hbelow].
Defined.

